(** * comida_inteligente: the state controller of [src/App.tsx]

    The [App] component owns every piece of session state through React
    [useState] cells and changes it only inside its event handlers.  This
    development embeds the handlers as programs of a small state / exception
    monad over the record of all cells, with the two calls to the inference
    service (the module [./services/geminiService], an opaque collaborator)
    taken as parameters, and proves properties of the workflow
    "capture, identify, generate", of the favourites list and of the
    ingredient list. *)

From Stdlib Require Import List String Bool ZArith Arith Lia.
Import ListNotations.
Local Open Scope string_scope.
Local Open Scope list_scope.

Set Implicit Arguments.

(* ------------------------------------------------------------------ *)
(** ** Data model ([types.ts]) *)

Record Recipe := mkRecipe {
  recipeName : string;
  description : string;
  prepTime : string;
  tags : list string;
  recipe_ingredients : list string;   (* field [ingredients] of [Recipe] *)
  instructions : list string
}.

Inductive Gender := masculino | feminino | nao_informar.

Record UserProfile := mkUserProfile {
  name : string;
  age : string;
  gender : Gender;
  dietaryRestrictions : list string
}.

(** The [useState] cells of [App], in the order of their declaration. *)
Record State := mkState {
  isAuthenticated : bool;
  ingredients : list string;
  recipes : list Recipe;
  favoriteRecipes : list Recipe;
  shoppingList : list string;
  isLoading : bool;
  loadingMessage : string;
  error : option string;
  activeTab : string;
  selectedRecipe : option Recipe;
  isCameraOpen : bool;
  profile : UserProfile
}.

Definition initialProfile : UserProfile :=
  mkUserProfile "" "" nao_informar [].

Definition initialState : State :=
  mkState false [] [] [] [] false "" None "Início" None false initialProfile.

(** A value thrown by a rejected promise; the handlers only log it. *)
Definition JsError := string.

(** What a promise settles to. *)
Inductive Promise (A : Type) :=
| Resolved (a : A)
| Rejected (e : JsError).
Arguments Resolved {A} a.
Arguments Rejected {A} e.

(** Effects visible outside the component. *)
Inductive Event :=
| IdentifyRequest (imageBase64 : string)
| GenerateRequest (currentIngredients : list string) (p : UserProfile)
| ConsoleError (err : JsError)
| Alert (msg : string).

(** The state cells together with the history of effects.  Every event is
    stored with the state that was committed when it happened: for a request
    this is what the component renders while the call is pending. *)
Record World := mkWorld {
  st : State;
  log : list (Event * State)
}.

(* ------------------------------------------------------------------ *)
(** ** The handler monad: state, log and JavaScript exceptions *)

Inductive Completion (A : Type) :=
| Normal (a : A)
| Throw (e : JsError).
Arguments Normal {A} a.
Arguments Throw {A} e.

Definition M (A : Type) := World -> Completion A * World.

Definition ret {A} (a : A) : M A := fun w => (Normal a, w).

Definition bind {A B} (m : M A) (k : A -> M B) : M B :=
  fun w =>
    match m w with
    | (Normal a, w1) => k a w1
    | (Throw e, w1) => (Throw e, w1)
    end.

Declare Scope handler_scope.
Delimit Scope handler_scope with handler.
Notation "x <- m ;; k" := (bind m (fun x => k))
  (at level 61, m at next level, right associativity) : handler_scope.
Notation "m ;; k" := (bind m (fun _ => k))
  (at level 61, right associativity) : handler_scope.
Local Open Scope handler_scope.

Definition throw {A} (e : JsError) : M A := fun w => (Throw e, w).

(** [try { body } catch (err) { handler err }] *)
Definition try_catch {A} (body : M A) (handler : JsError -> M A) : M A :=
  fun w =>
    match body w with
    | (Normal a, w1) => (Normal a, w1)
    | (Throw e, w1) => handler e w1
    end.

(** [try { body } finally { fin }]: [fin] runs on every exit of [body]; the
    completion of [body] is kept unless [fin] itself throws. *)
Definition try_finally {A} (body : M A) (fin : M unit) : M A :=
  fun w =>
    match body w with
    | (c, w1) =>
        match fin w1 with
        | (Normal _, w2) => (c, w2)
        | (Throw e, w2) => (Throw e, w2)
        end
    end.

(** [try { body } catch (err) { handler err } finally { fin }] *)
Definition try_catch_finally {A}
    (body : M A) (handler : JsError -> M A) (fin : M unit) : M A :=
  try_finally (try_catch body handler) fin.

Definition modify (f : State -> State) : M unit :=
  fun w => (Normal tt, mkWorld (f (st w)) (log w)).

Definition emit (e : Event) : M unit :=
  fun w => (Normal tt, mkWorld (st w) (log w ++ [(e, st w)])).

(** [await p]: the value of a resolved promise, the reason of a rejected one
    as an exception. *)
Definition await {A} (p : Promise A) : M A :=
  match p with
  | Resolved a => ret a
  | Rejected e => throw e
  end.

Definition exec {A} (m : M A) (w : World) : World := snd (m w).
Definition completion {A} (m : M A) (w : World) : Completion A := fst (m w).

(* ------------------------------------------------------------------ *)
(** ** The state setters *)

Definition with_isAuthenticated (v : bool) (s : State) : State :=
  mkState v (ingredients s) (recipes s) (favoriteRecipes s) (shoppingList s)
    (isLoading s) (loadingMessage s) (error s) (activeTab s)
    (selectedRecipe s) (isCameraOpen s) (profile s).

Definition with_ingredients (v : list string) (s : State) : State :=
  mkState (isAuthenticated s) v (recipes s) (favoriteRecipes s)
    (shoppingList s) (isLoading s) (loadingMessage s) (error s) (activeTab s)
    (selectedRecipe s) (isCameraOpen s) (profile s).

Definition with_recipes (v : list Recipe) (s : State) : State :=
  mkState (isAuthenticated s) (ingredients s) v (favoriteRecipes s)
    (shoppingList s) (isLoading s) (loadingMessage s) (error s) (activeTab s)
    (selectedRecipe s) (isCameraOpen s) (profile s).

Definition with_favoriteRecipes (v : list Recipe) (s : State) : State :=
  mkState (isAuthenticated s) (ingredients s) (recipes s) v
    (shoppingList s) (isLoading s) (loadingMessage s) (error s) (activeTab s)
    (selectedRecipe s) (isCameraOpen s) (profile s).

Definition with_isLoading (v : bool) (s : State) : State :=
  mkState (isAuthenticated s) (ingredients s) (recipes s) (favoriteRecipes s)
    (shoppingList s) v (loadingMessage s) (error s) (activeTab s)
    (selectedRecipe s) (isCameraOpen s) (profile s).

Definition with_loadingMessage (v : string) (s : State) : State :=
  mkState (isAuthenticated s) (ingredients s) (recipes s) (favoriteRecipes s)
    (shoppingList s) (isLoading s) v (error s) (activeTab s)
    (selectedRecipe s) (isCameraOpen s) (profile s).

Definition with_error (v : option string) (s : State) : State :=
  mkState (isAuthenticated s) (ingredients s) (recipes s) (favoriteRecipes s)
    (shoppingList s) (isLoading s) (loadingMessage s) v (activeTab s)
    (selectedRecipe s) (isCameraOpen s) (profile s).

Definition with_activeTab (v : string) (s : State) : State :=
  mkState (isAuthenticated s) (ingredients s) (recipes s) (favoriteRecipes s)
    (shoppingList s) (isLoading s) (loadingMessage s) (error s) v
    (selectedRecipe s) (isCameraOpen s) (profile s).

Definition with_selectedRecipe (v : option Recipe) (s : State) : State :=
  mkState (isAuthenticated s) (ingredients s) (recipes s) (favoriteRecipes s)
    (shoppingList s) (isLoading s) (loadingMessage s) (error s) (activeTab s)
    v (isCameraOpen s) (profile s).

Definition with_isCameraOpen (v : bool) (s : State) : State :=
  mkState (isAuthenticated s) (ingredients s) (recipes s) (favoriteRecipes s)
    (shoppingList s) (isLoading s) (loadingMessage s) (error s) (activeTab s)
    (selectedRecipe s) v (profile s).

Definition with_profile (v : UserProfile) (s : State) : State :=
  mkState (isAuthenticated s) (ingredients s) (recipes s) (favoriteRecipes s)
    (shoppingList s) (isLoading s) (loadingMessage s) (error s) (activeTab s)
    (selectedRecipe s) (isCameraOpen s) v.

(** [setX(v)] stores a value; [setX(prev => f prev)] applies an updater to
    the latest value of the cell. *)
Definition setIsAuthenticated (v : bool) : M unit := modify (with_isAuthenticated v).
Definition setIngredients (v : list string) : M unit := modify (with_ingredients v).
Definition setIngredientsWith (f : list string -> list string) : M unit :=
  modify (fun s => with_ingredients (f (ingredients s)) s).
Definition setRecipes (v : list Recipe) : M unit := modify (with_recipes v).
Definition setFavoriteRecipesWith (f : list Recipe -> list Recipe) : M unit :=
  modify (fun s => with_favoriteRecipes (f (favoriteRecipes s)) s).
Definition setIsLoading (v : bool) : M unit := modify (with_isLoading v).
Definition setLoadingMessage (v : string) : M unit := modify (with_loadingMessage v).
Definition setError (v : option string) : M unit := modify (with_error v).
Definition setActiveTab (v : string) : M unit := modify (with_activeTab v).
Definition setSelectedRecipe (v : option Recipe) : M unit := modify (with_selectedRecipe v).
Definition setIsCameraOpen (v : bool) : M unit := modify (with_isCameraOpen v).
Definition setProfile (v : UserProfile) : M unit := modify (with_profile v).

Definition console_error (err : JsError) : M unit := emit (ConsoleError err).
Definition alert (msg : string) : M unit := emit (Alert msg).

(* ------------------------------------------------------------------ *)
(** ** JavaScript array methods used by the handlers *)

(** [arr.some(pred)] *)
Definition some {A} (pred : A -> bool) (arr : list A) : bool := existsb pred arr.

(** [arr.includes(x)] on an array of strings: strict string equality. *)
Definition includes (arr : list string) (x : string) : bool :=
  existsb (String.eqb x) arr.

(** [arr.filter((x, i) => pred x i)], the elements visited from position
    [i].  Positions and the handler's [index : number] are integers here. *)
Fixpoint filter_from {A} (pred : A -> Z -> bool) (i : Z) (arr : list A) : list A :=
  match arr with
  | [] => []
  | x :: rest =>
      if pred x i then x :: filter_from pred (i + 1) rest
      else filter_from pred (i + 1) rest
  end.

Definition filter_indexed {A} (pred : A -> Z -> bool) (arr : list A) : list A :=
  filter_from pred 0 arr.

(* ------------------------------------------------------------------ *)
(** ** The inference service

    [generateRecipes] and [identifyIngredientsFromImage] are imported from
    [./services/geminiService]; the controller only depends on what their
    promises settle to, so they are parameters of the handlers. *)

Record GeminiService := mkGeminiService {
  generateRecipes : list string -> UserProfile -> Promise (list Recipe);
  identifyIngredientsFromImage : string -> Promise (list string)
}.

Definition msgSuggesting : string := "Sugerindo receitas...".
Definition msgIdentifying : string := "Identificando ingredientes...".
Definition msgGenerateFailed : string :=
  "Falha ao buscar receitas. Tente novamente mais tarde.".
Definition msgIdentifyFailed : string :=
  "Falha ao identificar ingredientes. Tente uma foto mais nítida.".
Definition msgProfileSaved : string := "Perfil salvo com sucesso!".

(* ------------------------------------------------------------------ *)
(** ** The event handlers of [App] *)

Section Handlers.

Variable service : GeminiService.

(** [await generateRecipes(currentIngredients, profile)] *)
Definition awaitGenerateRecipes
    (currentIngredients : list string) (p : UserProfile) : M (list Recipe) :=
  emit (GenerateRequest currentIngredients p) ;;
  await (generateRecipes service currentIngredients p).

(** [await identifyIngredientsFromImage(imageBase64)] *)
Definition awaitIdentifyIngredientsFromImage
    (imageBase64 : string) : M (list string) :=
  emit (IdentifyRequest imageBase64) ;;
  await (identifyIngredientsFromImage service imageBase64).

(** [handleGenerateRecipes], App.tsx lines 37-56.  [closure_profile] is the
    [profile] the callback closes over ([useCallback(..., [profile])]). *)
Definition handleGenerateRecipes
    (closure_profile : UserProfile) (currentIngredients : list string) : M unit :=
  if (List.length currentIngredients =? 0)%nat then
    setRecipes [] ;;
    ret tt
  else
    setLoadingMessage msgSuggesting ;;
    setIsLoading true ;;
    setError None ;;
    try_catch_finally
      (suggestedRecipes <- awaitGenerateRecipes currentIngredients closure_profile ;;
       setRecipes suggestedRecipes)
      (fun err =>
         setError (Some msgGenerateFailed) ;;
         console_error err)
      (setIsLoading false ;;
       setLoadingMessage "").

(** [handleCapture], App.tsx lines 58-80; it closes over
    [handleGenerateRecipes], hence over the same profile. *)
Definition handleCapture
    (closure_profile : UserProfile) (imageBase64 : string) : M unit :=
  setIsCameraOpen false ;;
  setIsLoading true ;;
  setLoadingMessage msgIdentifying ;;
  setError None ;;
  setIngredients [] ;;
  setRecipes [] ;;
  try_catch
    (identified <- awaitIdentifyIngredientsFromImage imageBase64 ;;
     setIngredients identified ;;
     if (0 <? List.length identified)%nat then
       handleGenerateRecipes closure_profile identified
     else
       setIsLoading false ;;
       setLoadingMessage "")
    (fun err =>
       setError (Some msgIdentifyFailed) ;;
       console_error err ;;
       setIsLoading false ;;
       setLoadingMessage "").

(** [handleIdentifyClick], App.tsx lines 82-88; [closure_ingredients] is
    the [ingredients] of the render that created the handler. *)
Definition handleIdentifyClick
    (closure_profile : UserProfile) (closure_ingredients : list string) : M unit :=
  if (0 <? List.length closure_ingredients)%nat then
    handleGenerateRecipes closure_profile closure_ingredients
  else
    setIsCameraOpen true.

(** The updater passed to [setFavoriteRecipes], App.tsx lines 91-98. *)
Definition toggleFavoriteUpdater (recipe : Recipe) (prev : list Recipe) : list Recipe :=
  let isFavorite := some (fun r => recipeName r =? recipeName recipe) prev in
  if isFavorite then
    filter (fun r => negb (recipeName r =? recipeName recipe)) prev
  else
    prev ++ [recipe].

(** [handleToggleFavorite], App.tsx lines 90-99. *)
Definition handleToggleFavorite (recipe : Recipe) : M unit :=
  setFavoriteRecipesWith (toggleFavoriteUpdater recipe).

(** [isRecipeFavorite], App.tsx lines 101-103. *)
Definition isRecipeFavorite (closure_favorites : list Recipe) (recipe : Recipe) : bool :=
  some (fun r => recipeName r =? recipeName recipe) closure_favorites.

(** [handleAddIngredient], App.tsx lines 105-109: the test reads the
    [ingredients] of the render, the updater the latest list. *)
Definition handleAddIngredient
    (closure_ingredients : list string) (ingredient : string) : M unit :=
  if negb (includes closure_ingredients ingredient) then
    setIngredientsWith (fun prev => prev ++ [ingredient])
  else
    ret tt.

(** [handleRemoveIngredient], App.tsx lines 111-113. *)
Definition handleRemoveIngredient (index : Z) : M unit :=
  setIngredientsWith (fun prev => filter_indexed (fun _ i => negb (i =? index)%Z) prev).

(** [handleProfileSave], App.tsx lines 115-118. *)
Definition handleProfileSave (updatedProfile : UserProfile) : M unit :=
  setProfile updatedProfile ;;
  alert msgProfileSaved.

(** The callbacks one render of [App] hands to its children: each closes
    over the state [s] the component was rendered with. *)
Record Callbacks := mkCallbacks {
  onGenerateRecipes : list string -> M unit;
  onCapture : string -> M unit;
  onIdentifyClick : M unit;
  onToggleFavorite : Recipe -> M unit;
  isFavorite : Recipe -> bool;
  onAddIngredient : string -> M unit;
  onRemoveIngredient : Z -> M unit;
  onProfileSave : UserProfile -> M unit
}.

Definition App (s : State) : Callbacks :=
  mkCallbacks
    (handleGenerateRecipes (profile s))
    (handleCapture (profile s))
    (handleIdentifyClick (profile s) (ingredients s))
    handleToggleFavorite
    (isRecipeFavorite (favoriteRecipes s))
    (handleAddIngredient (ingredients s))
    handleRemoveIngredient
    handleProfileSave.

(** A user action, dispatched to the callbacks of the current render. *)
Definition dispatch {A} (f : Callbacks -> M A) : M A :=
  fun w => f (App (st w)) w.

End Handlers.

(** The requests to the generate operation among a list of logged events. *)
Fixpoint generateRequests (evs : list (Event * State))
    : list (list string * UserProfile) :=
  match evs with
  | [] => []
  | (GenerateRequest ings p, _) :: rest => (ings, p) :: generateRequests rest
  | _ :: rest => generateRequests rest
  end.

Fixpoint identifyRequests (evs : list (Event * State)) : list string :=
  match evs with
  | [] => []
  | (IdentifyRequest img, _) :: rest => img :: identifyRequests rest
  | _ :: rest => identifyRequests rest
  end.

(** The favourites after a series of toggles, oldest first. *)
Definition toggleAll (rs : list Recipe) (favs : list Recipe) : list Recipe :=
  fold_left (fun acc r => toggleFavoriteUpdater r acc) rs favs.

(** The events a handler adds to the log when it runs from [w]. *)
Definition issued {A} (m : M A) (w : World) : list (Event * State) :=
  skipn (List.length (log w)) (log (exec m w)).

(** The states recorded with the requests to the service. *)
Fixpoint requestStates (evs : list (Event * State)) : list State :=
  match evs with
  | [] => []
  | (GenerateRequest _ _, s) :: rest => s :: requestStates rest
  | (IdentifyRequest _, s) :: rest => s :: requestStates rest
  | _ :: rest => requestStates rest
  end.

(** What [handleGenerateRecipes] has committed when it suspends on the call. *)
Definition generatePending (s : State) : State :=
  with_error None (with_isLoading true (with_loadingMessage msgSuggesting s)).

(** What [handleCapture] has committed when it suspends on the call. *)
Definition capturePending (s : State) : State :=
  with_recipes [] (with_ingredients [] (with_error None
    (with_loadingMessage msgIdentifying (with_isLoading true
      (with_isCameraOpen false s))))).

(** Release of the loading indicator: the [finally] block. *)
Definition released (s : State) : State :=
  with_loadingMessage "" (with_isLoading false s).

(** The world [handleGenerateRecipes] ends in, by what the call settled to. *)
Definition generateSettled
    (ings : list string) (p : UserProfile)
    (outcome : Promise (list Recipe)) (w : World) : World :=
  let s0 := generatePending (st w) in
  match outcome with
  | Resolved rs =>
      mkWorld (released (with_recipes rs s0))
              ((log w ++ [(GenerateRequest ings p, s0)]))
  | Rejected e =>
      let s1 := with_error (Some msgGenerateFailed) s0 in
      mkWorld (released s1)
              ((log w ++ [(GenerateRequest ings p, s0)]) ++ [(ConsoleError e, s1)])
  end.

(** A series of favourite toggles, each run to completion, oldest first. *)
Definition runToggles (rs : list Recipe) (w : World) : World :=
  fold_left (fun acc r => exec (handleToggleFavorite r) acc) rs w.

(** Every call made by a capture settled without a failure. *)
Definition captureSucceeds
    (service : GeminiService) (p : UserProfile) (imageBase64 : string) : Prop :=
  match identifyIngredientsFromImage service imageBase64 with
  | Rejected _ => False
  | Resolved [] => True
  | Resolved ids =>
      match generateRecipes service ids p with
      | Resolved _ => True
      | Rejected _ => False
      end
  end.

(* ------------------------------------------------------------------ *)
(** ** Sample data *)

Definition tomatoOmelet : Recipe :=
  mkRecipe "Tomato Omelet" "Eggs folded over fried tomato" "10 min"
    ["quick"] ["tomato"; "egg"] ["Beat the eggs"; "Fry with the tomato"].

Definition tomatoSoup : Recipe :=
  mkRecipe "Tomato Soup" "Smooth soup" "25 min" [] ["tomato"] ["Simmer"; "Blend"].

(** A service whose two operations answer. *)
Definition answeringService : GeminiService :=
  mkGeminiService (fun _ _ => Resolved [tomatoOmelet])
                  (fun _ => Resolved ["tomato"; "egg"]).

(** A service that cannot be reached. *)
Definition offlineService : GeminiService :=
  mkGeminiService (fun _ _ => Rejected "network")
                  (fun _ => Rejected "network").

(** A service that identifies but fails to generate. *)
Definition identifyOnlyService : GeminiService :=
  mkGeminiService (fun _ _ => Rejected "quota")
                  (fun _ => Resolved ["tomato"; "egg"]).

Definition initialWorld : World := mkWorld initialState [].

(** The session after a failed generation from the ingredient "tomato". *)
Definition failedWorld : World :=
  exec (handleGenerateRecipes offlineService initialProfile ["tomato"])
       (mkWorld (with_ingredients ["tomato"] initialState) []).

(* ------------------------------------------------------------------ *)
(** ** What the component renders *)

Definition tabHome : string := "Início".
Definition tabFavorites : string := "Favoritos".
Definition tabShoppingList : string := "Lista de Compras".
Definition tabProfile : string := "Perfil".
Definition textGenerate : string := "GERAR NOVAS RECEITAS".
Definition textIdentify : string := "IDENTIFICAR ALIMENTOS".

(** The data props of the children of the home tab, App.tsx lines 133-149. *)
Record HomeProps := mkHomeProps {
  buttonLoading : bool;                (* IdentifyButton loading *)
  buttonText : string;                 (* IdentifyButton text *)
  buttonLoadingText : string;          (* IdentifyButton loadingText *)
  listIngredients : list string;       (* IngredientList ingredients *)
  errorBanner : option string;         (* the paragraph under the list *)
  suggestionRecipes : list Recipe;     (* RecipeSuggestions recipes *)
  suggestionsLoading : bool            (* RecipeSuggestions isLoading *)
}.

(** What [renderContent] returns, by component, with its data props. *)
Inductive Content :=
| RecipeDetailView (recipe : Recipe) (shownAsFavorite : bool)
| HomeMain (props : HomeProps)
| FavoritesView (shown : list Recipe)
| ShoppingListView (items : list string)
| ProfileView (shown : UserProfile)
| NullContent.

(** [error && <p>...</p>]: null and the empty string render nothing. *)
Definition renderError (err : option string) : option string :=
  match err with
  | Some e => if e =? "" then None else Some e
  | None => None
  end.

(** [renderContent], App.tsx lines 120-160. *)
Definition renderContent (s : State) : Content :=
  match selectedRecipe s with
  | Some selected =>
      RecipeDetailView selected (isRecipeFavorite (favoriteRecipes s) selected)
  | None =>
      if activeTab s =? tabHome then
        HomeMain
          (mkHomeProps (isLoading s)
             (if (0 <? List.length (ingredients s))%nat then textGenerate
              else textIdentify)
             (loadingMessage s) (ingredients s) (renderError (error s))
             (recipes s) (isLoading s))
      else if activeTab s =? tabFavorites then FavoritesView (favoriteRecipes s)
      else if activeTab s =? tabShoppingList then ShoppingListView (shoppingList s)
      else if activeTab s =? tabProfile then ProfileView (profile s)
      else NullContent
  end.

(** What [App] returns, App.tsx lines 174-193: the login view alone, or the
    camera overlay when open, the content and the bottom navigation (with
    its active tab) when no recipe is selected. *)
Inductive Screen :=
| AuthScreen
| MainScreen (cameraView : bool) (content : Content) (bottomNav : option string).

Definition render (s : State) : Screen :=
  if negb (isAuthenticated s) then AuthScreen
  else
    MainScreen (isCameraOpen s) (renderContent s)
      (match selectedRecipe s with
       | Some _ => None
       | None => Some (activeTab s)
       end).

(* ------------------------------------------------------------------ *)
(** ** User actions *)

(** The events the rendered tree can raise: the handlers of [App] and the
    setters it passes inline ([onLoginSuccess], [onClose], [onRecipeSelect],
    [onBack], [onTabChange]). *)
Inductive Action :=
| Login
| CloseCamera
| Capture (imageBase64 : string)
| IdentifyClick
| ToggleFavorite (recipe : Recipe)
| AddIngredient (ingredient : string)
| RemoveIngredient (index : Z)
| ProfileSave (updatedProfile : UserProfile)
| RecipeSelect (recipe : Recipe)
| DetailBack
| TabChange (tab : string).

(** One action, raised on the current render and run to completion. *)
Definition perform (service : GeminiService) (a : Action) : M unit :=
  match a with
  | Login => setIsAuthenticated true
  | CloseCamera => setIsCameraOpen false
  | Capture img => dispatch service (fun cb => onCapture cb img)
  | IdentifyClick => dispatch service (fun cb => onIdentifyClick cb)
  | ToggleFavorite r => dispatch service (fun cb => onToggleFavorite cb r)
  | AddIngredient x => dispatch service (fun cb => onAddIngredient cb x)
  | RemoveIngredient i => dispatch service (fun cb => onRemoveIngredient cb i)
  | ProfileSave p => dispatch service (fun cb => onProfileSave cb p)
  | RecipeSelect r => setSelectedRecipe (Some r)
  | DetailBack => setSelectedRecipe None
  | TabChange tab => setActiveTab tab
  end.

(** A session: each action comes with the service as it answers then. *)
Definition performAll (steps : list (GeminiService * Action)) (w : World) : World :=
  fold_left (fun acc step => exec (perform (fst step) (snd step)) acc) steps w.

Definition isCapture (a : Action) : bool :=
  match a with
  | Capture _ => true
  | _ => false
  end.

Definition isLogin (a : Action) : bool :=
  match a with
  | Login => true
  | _ => false
  end.

(** The world [handleCapture] ends in, by what the calls settled to. *)
Definition captureSettled
    (service : GeminiService) (p : UserProfile) (img : string) (w : World) : World :=
  let s0 := capturePending (st w) in
  let l0 := log w ++ [(IdentifyRequest img, s0)] in
  match identifyIngredientsFromImage service img with
  | Rejected e =>
      let s1 := with_error (Some msgIdentifyFailed) s0 in
      mkWorld (released s1) (l0 ++ [(ConsoleError e, s1)])
  | Resolved [] => mkWorld (released (with_ingredients [] s0)) l0
  | Resolved ids =>
      generateSettled ids p (generateRecipes service ids p)
        (mkWorld (with_ingredients ids s0) l0)
  end.

(** Nothing is pending: the loading indicator is off. *)
Definition atRest (s : State) : Prop :=
  isLoading s = false /\ loadingMessage s = "".

(** The error cell holds nothing or one of the two fixed messages. *)
Definition knownError (s : State) : Prop :=
  error s = None \/ error s = Some msgGenerateFailed \/
  error s = Some msgIdentifyFailed.

(** A logged request agrees with the cells written just before it, in the
    same synchronous block of its handler. *)
Definition requestConsistent (ev : Event * State) : Prop :=
  match ev with
  | (GenerateRequest ings _, s) =>
      ings <> [] /\ ings = ingredients s /\
      isLoading s = true /\ loadingMessage s = msgSuggesting /\ error s = None
  | (IdentifyRequest _, s) =>
      ingredients s = [] /\ recipes s = [] /\ isCameraOpen s = false /\
      isLoading s = true /\ loadingMessage s = msgIdentifying /\ error s = None
  | _ => True
  end.

(** The reasons logged with [console.error]. *)
Fixpoint consoleErrors (evs : list (Event * State)) : list JsError :=
  match evs with
  | [] => []
  | (ConsoleError e, _) :: rest => e :: consoleErrors rest
  | _ :: rest => consoleErrors rest
  end.

(** The messages shown with [alert]. *)
Fixpoint alerts (evs : list (Event * State)) : list string :=
  match evs with
  | [] => []
  | (Alert msg, _) :: rest => msg :: alerts rest
  | _ :: rest => alerts rest
  end.

(** The actions that start the workflow: a capture invokes identification,
    a click on the identify button over a non-empty ingredient list invokes
    generation (App.tsx lines 83-84). *)
Definition invokesWorkflow (a : Action) (s : State) : bool :=
  match a with
  | Capture _ => true
  | IdentifyClick => (0 <? List.length (ingredients s))%nat
  | _ => false
  end.

(** Every call the action makes from the render of [s] settles without a
    failure. *)
Definition actionSucceeds
    (service : GeminiService) (a : Action) (s : State) : Prop :=
  match a with
  | Capture img => captureSucceeds service (profile s) img
  | IdentifyClick =>
      match ingredients s with
      | [] => True
      | i :: ings =>
          match generateRecipes service (i :: ings) (profile s) with
          | Resolved _ => True
          | Rejected _ => False
          end
      end
  | _ => True
  end.

(** [handleCapture] up to its first [await], App.tsx lines 59-66: what runs
    when the capture is raised, the identify call included. *)
Definition captureBegin (imageBase64 : string) : M unit :=
  setIsCameraOpen false ;;
  setIsLoading true ;;
  setLoadingMessage msgIdentifying ;;
  setError None ;;
  setIngredients [] ;;
  setRecipes [] ;;
  emit (IdentifyRequest imageBase64).

(** [handleCapture] from that [await] on, App.tsx lines 66-79: what runs when
    the identify promise has settled, with the [handleGenerateRecipes] (hence
    the profile) the handler closed over when the capture was raised. *)
Definition captureResume
    (service : GeminiService) (closure_profile : UserProfile)
    (settled : Promise (list string)) : M unit :=
  try_catch
    (identified <- await settled ;;
     setIngredients identified ;;
     if (0 <? List.length identified)%nat then
       handleGenerateRecipes service closure_profile identified
     else
       setIsLoading false ;;
       setLoadingMessage "")
    (fun err =>
       setError (Some msgIdentifyFailed) ;;
       console_error err ;;
       setIsLoading false ;;
       setLoadingMessage "").

(* ------------------------------------------------------------------ *)
(** ** Basic facts *)

Lemma skipn_length_app {A} (l tl : list A) : skipn (List.length l) (l ++ tl) = tl.
Proof.
  induction l as [|x l IH]; simpl; [reflexivity | exact IH].
Qed.

Lemma issued_of_log {A} (m : M A) (w : World) (tl : list (Event * State)) :
  log (exec m w) = log w ++ tl -> issued m w = tl.
Proof.
  intros H. unfold issued. rewrite H. apply skipn_length_app.
Qed.

Lemma with_favoriteRecipes_same (s : State) :
  with_favoriteRecipes (favoriteRecipes s) s = s.
Proof. destruct s; reflexivity. Qed.

Lemma with_ingredients_same (s : State) :
  with_ingredients (ingredients s) s = s.
Proof. destruct s; reflexivity. Qed.

Lemma world_eta (w : World) : mkWorld (st w) (log w) = w.
Proof. destruct w; reflexivity. Qed.

Lemma nonempty_length_eqb {A} (l : list A) :
  l <> [] -> (List.length l =? 0)%nat = false.
Proof. destruct l; [congruence | reflexivity]. Qed.

Lemma nonempty_length_ltb {A} (l : list A) :
  l <> [] -> (0 <? List.length l)%nat = true.
Proof. destruct l; [congruence | reflexivity]. Qed.

Section HandlerFacts.

Variable service : GeminiService.

(** A run of [handleGenerateRecipes] on a non-empty list never throws and
    ends in [generateSettled]. *)
Lemma handleGenerateRecipes_nonempty p ings w :
  ings <> [] ->
  handleGenerateRecipes service p ings w =
    (Normal tt, generateSettled ings p (generateRecipes service ings p) w).
Proof.
  intros Hne. unfold handleGenerateRecipes.
  rewrite (nonempty_length_eqb Hne).
  unfold generateSettled, try_catch_finally, try_finally, try_catch,
    awaitGenerateRecipes, bind.
  cbn -[msgSuggesting msgGenerateFailed].
  destruct (generateRecipes service ings p) as [rs | e]; reflexivity.
Qed.

Lemma handleGenerateRecipes_empty p w :
  handleGenerateRecipes service p [] w =
    (Normal tt, mkWorld (with_recipes [] (st w)) (log w)).
Proof. reflexivity. Qed.

Lemma generateSettled_log ings p outcome w :
  exists tl,
    log (generateSettled ings p outcome w) =
      log w ++ (GenerateRequest ings p, generatePending (st w)) :: tl /\
    generateRequests tl = [] /\ identifyRequests tl = [] /\
    requestStates tl = [].
Proof.
  destruct outcome as [rs | e]; simpl.
  - exists []. repeat split; reflexivity.
  - exists [(ConsoleError e,
             with_error (Some msgGenerateFailed) (generatePending (st w)))].
    rewrite <- app_assoc. repeat split; reflexivity.
Qed.

Lemma generateSettled_released ings p outcome w :
  isLoading (st (generateSettled ings p outcome w)) = false /\
  loadingMessage (st (generateSettled ings p outcome w)) = "".
Proof. destruct outcome; split; reflexivity. Qed.

Lemma generateSettled_ingredients ings p outcome w :
  ingredients (st (generateSettled ings p outcome w)) = ingredients (st w).
Proof. destruct outcome; reflexivity. Qed.

Lemma generateSettled_favorites ings p outcome w :
  favoriteRecipes (st (generateSettled ings p outcome w)) =
  favoriteRecipes (st w).
Proof. destruct outcome; reflexivity. Qed.

(** The run of [handleCapture], by what the identify call settled to. *)
Lemma handleCapture_rejected p img e w :
  identifyIngredientsFromImage service img = Rejected e ->
  handleCapture service p img w =
    (Normal tt,
     let s0 := capturePending (st w) in
     let s1 := with_error (Some msgIdentifyFailed) s0 in
     mkWorld (released s1)
             ((log w ++ [(IdentifyRequest img, s0)]) ++ [(ConsoleError e, s1)])).
Proof.
  intros Hid.
  unfold handleCapture, try_catch, awaitIdentifyIngredientsFromImage, bind.
  cbn -[msgIdentifying msgIdentifyFailed]. rewrite Hid. reflexivity.
Qed.

Lemma handleCapture_nothing_identified p img w :
  identifyIngredientsFromImage service img = Resolved [] ->
  handleCapture service p img w =
    (Normal tt,
     let s0 := capturePending (st w) in
     mkWorld (released (with_ingredients [] s0))
             (log w ++ [(IdentifyRequest img, s0)])).
Proof.
  intros Hid.
  unfold handleCapture, try_catch, awaitIdentifyIngredientsFromImage, bind.
  cbn -[msgIdentifying msgIdentifyFailed]. rewrite Hid. reflexivity.
Qed.

Lemma handleCapture_identified p img ids w :
  identifyIngredientsFromImage service img = Resolved ids ->
  ids <> [] ->
  handleCapture service p img w =
    (Normal tt,
     let s0 := capturePending (st w) in
     generateSettled ids p (generateRecipes service ids p)
       (mkWorld (with_ingredients ids s0)
                (log w ++ [(IdentifyRequest img, s0)]))).
Proof.
  intros Hid Hne.
  unfold handleCapture, try_catch, awaitIdentifyIngredientsFromImage, bind.
  cbn -[msgIdentifying msgIdentifyFailed handleGenerateRecipes Nat.ltb].
  rewrite Hid.
  cbn -[msgIdentifying msgIdentifyFailed handleGenerateRecipes Nat.ltb].
  rewrite (nonempty_length_ltb Hne).
  rewrite (handleGenerateRecipes_nonempty _ _ Hne). reflexivity.
Qed.

End HandlerFacts.

(* ------------------------------------------------------------------ *)
(** ** Facts about the favourites updater *)

Section Favorites.

Implicit Types (r x : Recipe) (favs : list Recipe).

Lemma isRecipeFavorite_false favs r :
  isRecipeFavorite favs r = false <->
  forall x, In x favs -> recipeName x <> recipeName r.
Proof.
  unfold isRecipeFavorite, some. induction favs as [|y favs IH]; simpl.
  - split; [intros _ x [] | reflexivity].
  - rewrite orb_false_iff, IH, String.eqb_neq. split.
    + intros [Hy Hrest] x [<- | Hin]; [exact Hy | exact (Hrest x Hin)].
    + intros H. split; [apply H; now left | intros x Hin; apply H; now right].
Qed.

Lemma isRecipeFavorite_true favs r :
  isRecipeFavorite favs r = true <->
  exists x, In x favs /\ recipeName x = recipeName r.
Proof.
  unfold isRecipeFavorite, some. rewrite existsb_exists.
  split; intros [x [Hin Hx]]; exists x; split; try assumption;
    now apply String.eqb_eq.
Qed.

Lemma toggle_absent favs r :
  isRecipeFavorite favs r = false ->
  toggleFavoriteUpdater r favs = favs ++ [r].
Proof.
  intros H. unfold toggleFavoriteUpdater.
  change (some (fun x => recipeName x =? recipeName r) favs)
    with (isRecipeFavorite favs r).
  now rewrite H.
Qed.

Lemma toggle_present favs r :
  isRecipeFavorite favs r = true ->
  toggleFavoriteUpdater r favs =
    filter (fun x => negb (recipeName x =? recipeName r)) favs.
Proof.
  intros H. unfold toggleFavoriteUpdater.
  change (some (fun x => recipeName x =? recipeName r) favs)
    with (isRecipeFavorite favs r).
  now rewrite H.
Qed.

Lemma isRecipeFavorite_snoc favs r : isRecipeFavorite (favs ++ [r]) r = true.
Proof.
  apply isRecipeFavorite_true. exists r. split; [| reflexivity].
  apply in_or_app. right. now left.
Qed.

Lemma filter_other_names favs r :
  isRecipeFavorite favs r = false ->
  filter (fun x => negb (recipeName x =? recipeName r)) favs = favs.
Proof.
  rewrite isRecipeFavorite_false.
  induction favs as [|y favs IH]; intros H; simpl; [reflexivity |].
  assert (Hy : (recipeName y =? recipeName r) = false)
    by (apply String.eqb_neq, H; now left).
  rewrite Hy. simpl. f_equal. apply IH. intros x Hin. apply H. now right.
Qed.

Lemma filter_same_name_absent favs r :
  isRecipeFavorite favs r = false ->
  filter (fun x => recipeName x =? recipeName r) favs = [].
Proof.
  rewrite isRecipeFavorite_false.
  induction favs as [|y favs IH]; intros H; simpl; [reflexivity |].
  assert (Hy : (recipeName y =? recipeName r) = false)
    by (apply String.eqb_neq, H; now left).
  rewrite Hy. apply IH. intros x Hin. apply H. now right.
Qed.

(** Two toggles of a recipe that was absent give back the list itself. *)
Lemma toggle_twice_absent favs r :
  isRecipeFavorite favs r = false ->
  toggleFavoriteUpdater r (toggleFavoriteUpdater r favs) = favs.
Proof.
  intros H. rewrite (toggle_absent _ _ H).
  rewrite toggle_present by apply isRecipeFavorite_snoc.
  rewrite filter_app, (filter_other_names _ _ H). simpl.
  rewrite String.eqb_refl. simpl. apply app_nil_r.
Qed.

(** After a removal no entry carries the toggled name. *)
Lemma toggle_present_removes_all favs r :
  isRecipeFavorite favs r = true ->
  isRecipeFavorite (toggleFavoriteUpdater r favs) r = false.
Proof.
  intros H. rewrite (toggle_present _ _ H).
  apply isRecipeFavorite_false. intros x Hin.
  apply filter_In in Hin. destruct Hin as [_ Hx].
  apply negb_true_iff in Hx. now apply String.eqb_neq.
Qed.

Lemma NoDup_names_filter (f : Recipe -> bool) favs :
  NoDup (map recipeName favs) -> NoDup (map recipeName (filter f favs)).
Proof.
  induction favs as [|y favs IH]; simpl; intros H; [constructor |].
  inversion H as [| ? ? Hnotin Hrest]; subst.
  destruct (f y); simpl; [| now apply IH].
  constructor; [| now apply IH].
  intros Hin. apply Hnotin.
  apply in_map_iff in Hin. destruct Hin as [x [Hname Hx]].
  apply filter_In in Hx. apply in_map_iff. exists x. tauto.
Qed.

(** Pairwise distinct names are kept by a toggle. *)
Lemma toggle_keeps_names_distinct favs r :
  NoDup (map recipeName favs) ->
  NoDup (map recipeName (toggleFavoriteUpdater r favs)).
Proof.
  intros Hnd. destruct (isRecipeFavorite favs r) eqn:Hfav.
  - rewrite (toggle_present _ _ Hfav). now apply NoDup_names_filter.
  - rewrite (toggle_absent _ _ Hfav), map_app. simpl.
    apply NoDup_app; [assumption | repeat constructor; intros [] |].
    intros n Hn [<- | []].
    apply in_map_iff in Hn. destruct Hn as [x [Hname Hx]].
    exact (proj1 (isRecipeFavorite_false _ _) Hfav x Hx Hname).
Qed.

Lemma toggleAll_keeps_names_distinct (rs : list Recipe) favs :
  NoDup (map recipeName favs) ->
  NoDup (map recipeName (toggleAll rs favs)).
Proof.
  unfold toggleAll. revert favs.
  induction rs as [|r rs IH]; intros favs H; simpl; [exact H |].
  apply IH. now apply toggle_keeps_names_distinct.
Qed.

(** Whatever the list, two toggles keep the set of names in it. *)
Lemma toggle_twice_same_names favs r n :
  In n (map recipeName (toggleFavoriteUpdater r (toggleFavoriteUpdater r favs)))
  <-> In n (map recipeName favs).
Proof.
  destruct (isRecipeFavorite favs r) eqn:Hfav.
  - rewrite (toggle_absent _ _ (toggle_present_removes_all _ _ Hfav)).
    rewrite (toggle_present _ _ Hfav), map_app, in_app_iff. simpl.
    rewrite !in_map_iff. split.
    + intros [[x [Hn Hx]] | [<- | []]].
      * apply filter_In in Hx. exists x. tauto.
      * apply isRecipeFavorite_true in Hfav.
        destruct Hfav as [x [Hin Hx]]. exists x. tauto.
    + intros [x [Hn Hx]].
      destruct (String.eqb_spec (recipeName x) (recipeName r)) as [E | E].
      * right. left. congruence.
      * left. exists x. split; [assumption |].
        apply filter_In. split; [assumption |].
        apply negb_true_iff. now apply String.eqb_neq.
  - now rewrite (toggle_twice_absent _ _ Hfav).
Qed.

Lemma handleToggleFavorite_run r w :
  handleToggleFavorite r w =
    (Normal tt,
     mkWorld (with_favoriteRecipes
                (toggleFavoriteUpdater r (favoriteRecipes (st w))) (st w))
             (log w)).
Proof. reflexivity. Qed.

End Favorites.

(* ------------------------------------------------------------------ *)
(** ** Facts about the ingredient list *)

Lemma includes_In (arr : list string) (x : string) :
  includes arr x = true <-> In x arr.
Proof.
  unfold includes. rewrite existsb_exists. split.
  - intros [y [Hin Hy]]. apply String.eqb_eq in Hy. now subst.
  - intros Hin. exists x. split; [assumption | apply String.eqb_refl].
Qed.

(** Positions [i], [i+1], ... of the visited elements never meet an index
    that lies before [i] or past the last position. *)
Lemma filter_from_out_of_range {A} (arr : list A) (index i : Z) :
  (index < i \/ i + Z.of_nat (List.length arr) <= index)%Z ->
  filter_from (fun _ j => negb (j =? index)%Z) i arr = arr.
Proof.
  revert i. induction arr as [|x arr IH]; intros i H; simpl; [reflexivity |].
  assert (Hi : (i =? index)%Z = false).
  { apply Z.eqb_neq. simpl List.length in H. lia. }
  rewrite Hi. simpl. f_equal. apply IH. simpl List.length in H. lia.
Qed.

(* ------------------------------------------------------------------ *)
(** ** The workflow on sample data *)

(** Capture, identify ["tomato"; "egg"], generate one recipe: the request
    carries the identified list and the profile, one recipe named
    "Tomato Omelet" is shown, nothing is loading and there is no error. *)
Example capture_end_to_end :
  let run := dispatch answeringService (fun cb => onCapture cb "data:image/jpeg;base64,AAAA") in
  let w' := exec run initialWorld in
  generateRequests (log w') = [(["tomato"; "egg"], initialProfile)] /\
  ingredients (st w') = ["tomato"; "egg"] /\
  map recipeName (recipes (st w')) = ["Tomato Omelet"] /\
  isLoading (st w') = false /\
  error (st w') = None.
Proof. vm_compute. repeat split. Qed.

(** While the generate call of that capture is pending, the component shows
    the loading indicator with the "suggesting" message. *)
Example capture_pending_states :
  let run := handleCapture answeringService initialProfile "data:image/jpeg;base64,AAAA" in
  map (fun s => (isLoading s, loadingMessage s))
      (requestStates (issued run initialWorld)) =
    [(true, msgIdentifying); (true, msgSuggesting)].
Proof. reflexivity. Qed.

Example identify_click_without_ingredients_opens_camera :
  let run := dispatch answeringService onIdentifyClick in
  isCameraOpen (st (exec run initialWorld)) = true /\
  issued run initialWorld = [].
Proof. split; reflexivity. Qed.

Example toggle_same_name_other_recipe :
  toggleAll [tomatoOmelet; mkRecipe "Tomato Omelet" "another" "5 min" [] [] []] []
    = [].
Proof. reflexivity. Qed.

Example remove_in_range :
  ingredients (st (exec (handleRemoveIngredient 0)
                        (mkWorld (with_ingredients ["tomato"; "egg"] initialState) [])))
    = ["egg"].
Proof. reflexivity. Qed.

(* ------------------------------------------------------------------ *)
(** ** The generate operation *)

(** C1. For every non-empty ingredient list, the generate operation invoked
    from the current render issues exactly one request to the generate
    collaborator, carrying that list and the current profile (and no identify
    request); it completes normally, and when the call resolves the recipe
    list is exactly the response. *)
Theorem generate_sends_one_request_and_shows_response
    (service : GeminiService) (w : World) (ings : list string) :
  ings <> [] ->
  let run := dispatch service (fun cb => onGenerateRecipes cb ings) in
  generateRequests (issued run w) = [(ings, profile (st w))] /\
  identifyRequests (issued run w) = [] /\
  completion run w = Normal tt /\
  forall rs,
    generateRecipes service ings (profile (st w)) = Resolved rs ->
    recipes (st (exec run w)) = rs.
Proof.
  intros Hne run.
  assert (Hrun : run w =
    (Normal tt, generateSettled ings (profile (st w))
                  (generateRecipes service ings (profile (st w))) w)).
  { unfold run, dispatch. simpl onGenerateRecipes.
    apply handleGenerateRecipes_nonempty. exact Hne. }
  destruct (generateSettled_log ings (profile (st w))
              (generateRecipes service ings (profile (st w))) w)
    as [tl [Hlog [Hg [Hi _]]]].
  assert (Hissued : issued run w =
    (GenerateRequest ings (profile (st w)), generatePending (st w)) :: tl).
  { apply issued_of_log. unfold exec. rewrite Hrun. exact Hlog. }
  rewrite Hissued. simpl. rewrite Hg, Hi.
  repeat split.
  - unfold completion. now rewrite Hrun.
  - intros rs Hrs. unfold exec. rewrite Hrun, Hrs. reflexivity.
Qed.

Lemma generate_sends_one_request_and_shows_response_witness :
  ["tomato"; "egg"] <> [] /\
  let run :=
    dispatch answeringService (fun cb => onGenerateRecipes cb ["tomato"; "egg"]) in
  generateRequests (issued run initialWorld) =
    [(["tomato"; "egg"], profile (st initialWorld))] /\
  identifyRequests (issued run initialWorld) = [] /\
  completion run initialWorld = Normal tt /\
  forall rs,
    generateRecipes answeringService ["tomato"; "egg"] (profile (st initialWorld))
      = Resolved rs ->
    recipes (st (exec run initialWorld)) = rs.
Proof.
  assert (Hne : ["tomato"; "egg"] <> []) by discriminate.
  split; [exact Hne |].
  exact (@generate_sends_one_request_and_shows_response
           answeringService initialWorld ["tomato"; "egg"] Hne).
Defined.

(** C2. The generate operation on an empty ingredient list issues no event at
    all (so no request), completes normally, and changes nothing but the
    recipe list, which becomes empty. *)
Theorem generate_on_empty_list_only_clears_recipes
    (service : GeminiService) (p : UserProfile) (w : World) :
  let run := handleGenerateRecipes service p [] in
  issued run w = [] /\
  generateRequests (issued run w) = [] /\
  completion run w = Normal tt /\
  recipes (st (exec run w)) = [] /\
  exec run w = mkWorld (with_recipes [] (st w)) (log w).
Proof.
  intros run.
  assert (Hissued : issued run w = []).
  { apply issued_of_log. simpl. now rewrite app_nil_r. }
  rewrite Hissued. repeat split.
Qed.

(** C3. For every non-empty ingredient list and whatever the generate call
    settles to (the service is arbitrary), the generate operation completes
    normally with the loading flag false and the loading message empty. *)
Theorem generate_always_releases_loading
    (service : GeminiService) (p : UserProfile) (ings : list string) (w : World) :
  ings <> [] ->
  let run := handleGenerateRecipes service p ings in
  completion run w = Normal tt /\
  isLoading (st (exec run w)) = false /\
  loadingMessage (st (exec run w)) = "".
Proof.
  intros Hne run. unfold completion, exec, run.
  rewrite (handleGenerateRecipes_nonempty service p w Hne). simpl fst. simpl snd.
  split; [reflexivity | apply generateSettled_released].
Qed.

Lemma generate_always_releases_loading_witness :
  ["tomato"] <> [] /\
  let run := handleGenerateRecipes offlineService initialProfile ["tomato"] in
  completion run initialWorld = Normal tt /\
  isLoading (st (exec run initialWorld)) = false /\
  loadingMessage (st (exec run initialWorld)) = "".
Proof.
  assert (Hne : ["tomato"] <> []) by discriminate.
  split; [exact Hne |].
  exact (@generate_always_releases_loading
           offlineService initialProfile ["tomato"] initialWorld Hne).
Defined.

(* ------------------------------------------------------------------ *)
(** ** The identify operation *)

(** C4. When the identify call of a capture is rejected, the handler ends
    normally with an empty ingredient list, an empty recipe list, the fixed
    identification-failure message as error and the loading flag false (and
    the loading message empty); the one identify request is not retried and
    no generate request is made. *)
Theorem capture_identify_failure
    (service : GeminiService) (p : UserProfile) (img : string) (e : JsError)
    (w : World) :
  identifyIngredientsFromImage service img = Rejected e ->
  let run := handleCapture service p img in
  completion run w = Normal tt /\
  ingredients (st (exec run w)) = [] /\
  recipes (st (exec run w)) = [] /\
  error (st (exec run w)) = Some msgIdentifyFailed /\
  isLoading (st (exec run w)) = false /\
  loadingMessage (st (exec run w)) = "" /\
  identifyRequests (issued run w) = [img] /\
  generateRequests (issued run w) = [].
Proof.
  intros Hid run.
  pose proof (handleCapture_rejected service p img w Hid) as Hrun.
  fold run in Hrun.
  assert (Hissued : issued run w =
    [(IdentifyRequest img, capturePending (st w));
     (ConsoleError e, with_error (Some msgIdentifyFailed) (capturePending (st w)))]).
  { apply issued_of_log. unfold exec. rewrite Hrun. simpl.
    now rewrite <- app_assoc. }
  rewrite Hissued. unfold completion, exec. rewrite Hrun.
  repeat split.
Qed.

Lemma capture_identify_failure_witness :
  identifyIngredientsFromImage offlineService "data:image/jpeg;base64,AAAA"
    = Rejected "network" /\
  let run := handleCapture offlineService initialProfile "data:image/jpeg;base64,AAAA" in
  completion run failedWorld = Normal tt /\
  ingredients (st (exec run failedWorld)) = [] /\
  recipes (st (exec run failedWorld)) = [] /\
  error (st (exec run failedWorld)) = Some msgIdentifyFailed /\
  isLoading (st (exec run failedWorld)) = false /\
  loadingMessage (st (exec run failedWorld)) = "" /\
  identifyRequests (issued run failedWorld) = ["data:image/jpeg;base64,AAAA"] /\
  generateRequests (issued run failedWorld) = [].
Proof.
  split; [reflexivity |].
  exact (@capture_identify_failure offlineService initialProfile
           "data:image/jpeg;base64,AAAA" "network" failedWorld eq_refl).
Defined.

(* ------------------------------------------------------------------ *)
(** ** Favourites *)

(** C5. Toggling a recipe whose name is not among the favourites appends it,
    so that exactly one entry carries its name; a second toggle removes it
    and gives back the world as it was (the same list, hence the same
    membership); a third toggle appends it again. *)
Theorem toggle_favorite_round_trip (recipe : Recipe) (w : World) :
  isRecipeFavorite (favoriteRecipes (st w)) recipe = false ->
  let favs := favoriteRecipes (st w) in
  let w1 := exec (handleToggleFavorite recipe) w in
  let w2 := exec (handleToggleFavorite recipe) w1 in
  let w3 := exec (handleToggleFavorite recipe) w2 in
  favoriteRecipes (st w1) = favs ++ [recipe] /\
  filter (fun r => recipeName r =? recipeName recipe) (favoriteRecipes (st w1))
    = [recipe] /\
  isRecipeFavorite (favoriteRecipes (st w2)) recipe = false /\
  favoriteRecipes (st w2) = favs /\
  w2 = w /\
  (forall r, In r (favoriteRecipes (st w2)) <-> In r favs) /\
  favoriteRecipes (st w3) = favs ++ [recipe].
Proof.
  intros Hfav favs w1 w2 w3. subst favs.
  assert (H1 : favoriteRecipes (st w1) = favoriteRecipes (st w) ++ [recipe]).
  { unfold w1, exec. rewrite handleToggleFavorite_run. simpl.
    now apply toggle_absent. }
  assert (H2 : favoriteRecipes (st w2) = favoriteRecipes (st w)).
  { unfold w2, w1, exec. rewrite !handleToggleFavorite_run. simpl.
    now apply toggle_twice_absent. }
  assert (Hw2 : w2 = w).
  { unfold w2, w1, exec. rewrite !handleToggleFavorite_run.
    destruct w as [s l]. cbn -[toggleFavoriteUpdater] in *.
    rewrite (toggle_twice_absent _ _ Hfav).
    destruct s; reflexivity. }
  repeat split.
  - exact H1.
  - rewrite H1, filter_app, (filter_same_name_absent _ _ Hfav). simpl.
    now rewrite String.eqb_refl.
  - rewrite H2. exact Hfav.
  - exact H2.
  - exact Hw2.
  - now rewrite H2.
  - now rewrite H2.
  - unfold w3. rewrite Hw2. exact H1.
Qed.

Lemma toggle_favorite_round_trip_witness :
  isRecipeFavorite (favoriteRecipes (st (runToggles [tomatoSoup] initialWorld)))
    tomatoOmelet = false /\
  let w := runToggles [tomatoSoup] initialWorld in
  let favs := favoriteRecipes (st w) in
  let w1 := exec (handleToggleFavorite tomatoOmelet) w in
  let w2 := exec (handleToggleFavorite tomatoOmelet) w1 in
  let w3 := exec (handleToggleFavorite tomatoOmelet) w2 in
  favoriteRecipes (st w1) = favs ++ [tomatoOmelet] /\
  filter (fun r => recipeName r =? recipeName tomatoOmelet)
    (favoriteRecipes (st w1)) = [tomatoOmelet] /\
  isRecipeFavorite (favoriteRecipes (st w2)) tomatoOmelet = false /\
  favoriteRecipes (st w2) = favs /\
  w2 = w /\
  (forall r, In r (favoriteRecipes (st w2)) <-> In r favs) /\
  favoriteRecipes (st w3) = favs ++ [tomatoOmelet].
Proof.
  split; [reflexivity |].
  exact (@toggle_favorite_round_trip tomatoOmelet
           (runToggles [tomatoSoup] initialWorld) eq_refl).
Defined.

Lemma runToggles_favorites (rs : list Recipe) (w : World) :
  favoriteRecipes (st (runToggles rs w)) = toggleAll rs (favoriteRecipes (st w)).
Proof.
  unfold runToggles, toggleAll. revert w.
  induction rs as [|r rs IH]; intros w; simpl; [reflexivity |].
  rewrite IH. reflexivity.
Qed.

(** C10. Starting from an empty favourites list, after any series of
    favourite toggles the names of the favourites are pairwise distinct; and
    toggling a recipe that is a favourite leaves no entry with its name. *)
Theorem favorites_names_distinct (rs : list Recipe) (w0 : World) :
  favoriteRecipes (st w0) = [] ->
  let w := runToggles rs w0 in
  NoDup (map recipeName (favoriteRecipes (st w))) /\
  forall recipe,
    isRecipeFavorite (favoriteRecipes (st w)) recipe = true ->
    forall r,
      In r (favoriteRecipes (st (exec (handleToggleFavorite recipe) w))) ->
      recipeName r <> recipeName recipe.
Proof.
  intros Hempty w. split.
  - unfold w. rewrite runToggles_favorites, Hempty.
    apply toggleAll_keeps_names_distinct. constructor.
  - intros recipe Hfav. unfold exec. rewrite handleToggleFavorite_run. simpl.
    apply isRecipeFavorite_false. now apply toggle_present_removes_all.
Qed.

Lemma favorites_names_distinct_witness :
  favoriteRecipes (st initialWorld) = [] /\
  let w := runToggles [tomatoOmelet; tomatoSoup; tomatoOmelet; tomatoOmelet]
             initialWorld in
  NoDup (map recipeName (favoriteRecipes (st w))) /\
  forall recipe,
    isRecipeFavorite (favoriteRecipes (st w)) recipe = true ->
    forall r,
      In r (favoriteRecipes (st (exec (handleToggleFavorite recipe) w))) ->
      recipeName r <> recipeName recipe.
Proof.
  split; [reflexivity |].
  exact (@favorites_names_distinct
           [tomatoOmelet; tomatoSoup; tomatoOmelet; tomatoOmelet]
           initialWorld eq_refl).
Defined.

(* ------------------------------------------------------------------ *)
(** ** The ingredient list *)

Lemma handleAddIngredient_present (closure_ingredients : list string)
    (x : string) (w : World) :
  In x closure_ingredients ->
  handleAddIngredient closure_ingredients x w = (Normal tt, w).
Proof.
  intros Hin. unfold handleAddIngredient.
  rewrite (proj2 (includes_In _ _) Hin). reflexivity.
Qed.

(** C6. Adding an ingredient name that is already in the list (the same
    string) completes normally and leaves the list, its length and in fact
    the whole world unchanged. *)
Theorem add_present_ingredient_unchanged
    (service : GeminiService) (w : World) (x : string) :
  In x (ingredients (st w)) ->
  let run := dispatch service (fun cb => onAddIngredient cb x) in
  completion run w = Normal tt /\
  ingredients (st (exec run w)) = ingredients (st w) /\
  List.length (ingredients (st (exec run w))) = List.length (ingredients (st w)) /\
  exec run w = w.
Proof.
  intros Hin run.
  assert (Hrun : run w = (Normal tt, w)).
  { unfold run, dispatch. simpl onAddIngredient.
    now apply handleAddIngredient_present. }
  unfold completion, exec. rewrite Hrun. repeat split.
Qed.

Lemma add_present_ingredient_unchanged_witness :
  In "tomato" (ingredients (st failedWorld)) /\
  let run := dispatch answeringService (fun cb => onAddIngredient cb "tomato") in
  completion run failedWorld = Normal tt /\
  ingredients (st (exec run failedWorld)) = ingredients (st failedWorld) /\
  List.length (ingredients (st (exec run failedWorld))) =
    List.length (ingredients (st failedWorld)) /\
  exec run failedWorld = failedWorld.
Proof.
  assert (Hin : In "tomato" (ingredients (st failedWorld)))
    by (simpl; left; reflexivity).
  split; [exact Hin |].
  exact (@add_present_ingredient_unchanged answeringService failedWorld "tomato" Hin).
Defined.

(** C7. Removing by an index that is negative or at least the length of the
    ingredient list completes normally (nothing is thrown) and leaves the
    list, and the whole world, unchanged. *)
Theorem remove_out_of_range_unchanged (w : World) (index : Z) :
  (index < 0 \/ Z.of_nat (List.length (ingredients (st w))) <= index)%Z ->
  let run := handleRemoveIngredient index in
  completion run w = Normal tt /\
  ingredients (st (exec run w)) = ingredients (st w) /\
  exec run w = w.
Proof.
  intros Hrange run.
  assert (Hrun : run w = (Normal tt, w)).
  { unfold run, handleRemoveIngredient, setIngredientsWith, modify, filter_indexed.
    rewrite filter_from_out_of_range by lia.
    rewrite with_ingredients_same, world_eta. reflexivity. }
  unfold completion, exec. rewrite Hrun. repeat split.
Qed.

Lemma remove_out_of_range_unchanged_witness :
  (-1 < 0 \/ Z.of_nat (List.length (ingredients (st failedWorld))) <= -1)%Z /\
  (1 < 0 \/ Z.of_nat (List.length (ingredients (st failedWorld))) <= 1)%Z /\
  (let run := handleRemoveIngredient (-1) in
   completion run failedWorld = Normal tt /\
   ingredients (st (exec run failedWorld)) = ingredients (st failedWorld) /\
   exec run failedWorld = failedWorld) /\
  (let run := handleRemoveIngredient 1 in
   completion run failedWorld = Normal tt /\
   ingredients (st (exec run failedWorld)) = ingredients (st failedWorld) /\
   exec run failedWorld = failedWorld).
Proof.
  assert (Hneg : (-1 < 0 \/
                  Z.of_nat (List.length (ingredients (st failedWorld))) <= -1)%Z)
    by (left; reflexivity).
  assert (Hpast : (1 < 0 \/
                   Z.of_nat (List.length (ingredients (st failedWorld))) <= 1)%Z)
    by (right; simpl; lia).
  split; [exact Hneg |].
  split; [exact Hpast |].
  split.
  - exact (@remove_out_of_range_unchanged failedWorld (-1)%Z Hneg).
  - exact (@remove_out_of_range_unchanged failedWorld 1%Z Hpast).
Defined.

(* ------------------------------------------------------------------ *)
(** ** Errors *)

(** The guard of [handleGenerateRecipes] returns before the reset of
    [error]: called with an empty list the handler completes normally, issues
    nothing, and an earlier error is still there.  No call site of [App]
    does that: both test [length > 0] first (App.tsx lines 68 and 83). *)
Lemma generate_on_empty_list_keeps_error :
  let run := handleGenerateRecipes answeringService initialProfile [] in
  error (st failedWorld) = Some msgGenerateFailed /\
  completion run failedWorld = Normal tt /\
  issued run failedWorld = [] /\
  error (st (exec run failedWorld)) = Some msgGenerateFailed /\
  error (st (exec run failedWorld)) <> None.
Proof.
  cbv zeta. repeat split. discriminate.
Qed.

(** At the level of the handlers: a capture, and a generation from a
    non-empty ingredient list, make at least one request, and every request
    is made with [error] reset to null, whatever it was before; when every
    call settles without failure, [error] is null at the end. *)
Theorem error_reset_by_capture_and_nonempty_generate
    (service : GeminiService) (p : UserProfile) (w : World)
    (img : string) (ings : list string) :
  ings <> [] ->
  (let run := handleCapture service p img in
   requestStates (issued run w) <> [] /\
   Forall (fun s => error s = None) (requestStates (issued run w)) /\
   (captureSucceeds service p img -> error (st (exec run w)) = None)) /\
  (let run := handleGenerateRecipes service p ings in
   requestStates (issued run w) <> [] /\
   Forall (fun s => error s = None) (requestStates (issued run w)) /\
   (forall rs, generateRecipes service ings p = Resolved rs ->
               error (st (exec run w)) = None)).
Proof.
  intros Hne. split; intros run.
  - unfold captureSucceeds.
    destruct (identifyIngredientsFromImage service img) as [ids | e] eqn:Hid.
    + destruct ids as [| i ids].
      * pose proof (handleCapture_nothing_identified service p img w Hid) as Hrun.
        fold run in Hrun.
        assert (Hissued : issued run w =
                  [(IdentifyRequest img, capturePending (st w))]).
        { apply issued_of_log. unfold exec. now rewrite Hrun. }
        rewrite Hissued. unfold exec. rewrite Hrun. simpl.
        repeat split; [discriminate | repeat constructor].
      * assert (Hids : i :: ids <> []) by discriminate.
        pose proof (handleCapture_identified service p img w Hid Hids) as Hrun.
        fold run in Hrun. cbv zeta in Hrun.
        set (w1 := mkWorld (with_ingredients (i :: ids) (capturePending (st w)))
                     (log w ++ [(IdentifyRequest img, capturePending (st w))]))
          in Hrun.
        destruct (generateSettled_log (i :: ids) p
                    (generateRecipes service (i :: ids) p) w1)
          as [tl [Hlog [_ [_ Htl]]]].
        assert (Hissued : issued run w =
                  (IdentifyRequest img, capturePending (st w))
                  :: (GenerateRequest (i :: ids) p, generatePending (st w1)) :: tl).
        { apply issued_of_log. unfold exec. rewrite Hrun. simpl snd.
          rewrite Hlog. unfold w1. simpl log. now rewrite <- app_assoc. }
        rewrite Hissued. simpl requestStates. rewrite Htl.
        unfold exec. rewrite Hrun. simpl snd.
        split; [discriminate |].
        split; [repeat constructor |].
        destruct (generateRecipes service (i :: ids) p); [reflexivity | tauto].
    + pose proof (handleCapture_rejected service p img w Hid) as Hrun.
      fold run in Hrun.
      assert (Hissued : issued run w =
        [(IdentifyRequest img, capturePending (st w));
         (ConsoleError e,
          with_error (Some msgIdentifyFailed) (capturePending (st w)))]).
      { apply issued_of_log. unfold exec. rewrite Hrun. simpl.
        now rewrite <- app_assoc. }
      rewrite Hissued. simpl.
      repeat split; [discriminate | repeat constructor | tauto].
  - pose proof (handleGenerateRecipes_nonempty service p w Hne) as Hrun.
    fold run in Hrun.
    destruct (generateSettled_log ings p (generateRecipes service ings p) w)
      as [tl [Hlog [_ [_ Htl]]]].
    assert (Hissued : issued run w =
              (GenerateRequest ings p, generatePending (st w)) :: tl).
    { apply issued_of_log. unfold exec. now rewrite Hrun. }
    rewrite Hissued. simpl requestStates. rewrite Htl.
    unfold exec. rewrite Hrun. simpl snd.
    split; [discriminate |].
    split; [repeat constructor |].
    intros rs Hrs. rewrite Hrs. reflexivity.
Qed.

Lemma error_reset_by_capture_and_nonempty_generate_witness :
  ["tomato"] <> [] /\
  (let run := handleCapture answeringService initialProfile "data:image/jpeg;base64,AAAA" in
   requestStates (issued run failedWorld) <> [] /\
   Forall (fun s => error s = None) (requestStates (issued run failedWorld)) /\
   (captureSucceeds answeringService initialProfile "data:image/jpeg;base64,AAAA" ->
    error (st (exec run failedWorld)) = None)) /\
  (let run := handleGenerateRecipes answeringService initialProfile ["tomato"] in
   requestStates (issued run failedWorld) <> [] /\
   Forall (fun s => error s = None) (requestStates (issued run failedWorld)) /\
   (forall rs,
      generateRecipes answeringService ["tomato"] initialProfile = Resolved rs ->
      error (st (exec run failedWorld)) = None)).
Proof.
  assert (Hne : ["tomato"] <> []) by discriminate.
  split; [exact Hne |].
  exact (@error_reset_by_capture_and_nonempty_generate
           answeringService initialProfile failedWorld
           "data:image/jpeg;base64,AAAA" ["tomato"] Hne).
Defined.

(** C9. When the generate call is rejected, the generate operation leaves
    the ingredient list exactly as it was and reports the fixed generation
    failure; in a capture whose identify call resolved to that list, the
    identified ingredients stay in place after the rejected generate call. *)
Theorem generate_failure_keeps_ingredients
    (service : GeminiService) (p : UserProfile) (ings : list string)
    (e : JsError) (img : string) (w : World) :
  generateRecipes service ings p = Rejected e ->
  (let run := handleGenerateRecipes service p ings in
   ingredients (st (exec run w)) = ingredients (st w) /\
   (ings <> [] -> error (st (exec run w)) = Some msgGenerateFailed)) /\
  (identifyIngredientsFromImage service img = Resolved ings ->
   let run := handleCapture service p img in
   ingredients (st (exec run w)) = ings /\
   (ings <> [] -> error (st (exec run w)) = Some msgGenerateFailed)).
Proof.
  intros Hgen. split.
  - intros run. destruct ings as [| i ings].
    + split; [reflexivity | congruence].
    + assert (Hne : i :: ings <> []) by discriminate.
      unfold exec, run. rewrite (handleGenerateRecipes_nonempty service p w Hne).
      rewrite Hgen. split; reflexivity.
  - intros Hid run. destruct ings as [| i ings].
    + unfold exec, run.
      rewrite (handleCapture_nothing_identified service p img w Hid).
      split; [reflexivity | congruence].
    + assert (Hne : i :: ings <> []) by discriminate.
      unfold exec, run.
      rewrite (handleCapture_identified service p img w Hid Hne).
      rewrite Hgen. split; reflexivity.
Qed.

Lemma generate_failure_keeps_ingredients_witness :
  generateRecipes identifyOnlyService ["tomato"; "egg"] initialProfile
    = Rejected "quota" /\
  (let run := handleGenerateRecipes identifyOnlyService initialProfile ["tomato"; "egg"] in
   ingredients (st (exec run failedWorld)) = ingredients (st failedWorld) /\
   (["tomato"; "egg"] <> [] ->
    error (st (exec run failedWorld)) = Some msgGenerateFailed)) /\
  (identifyIngredientsFromImage identifyOnlyService "data:image/jpeg;base64,AAAA"
     = Resolved ["tomato"; "egg"] ->
   let run := handleCapture identifyOnlyService initialProfile "data:image/jpeg;base64,AAAA" in
   ingredients (st (exec run failedWorld)) = ["tomato"; "egg"] /\
   (["tomato"; "egg"] <> [] ->
    error (st (exec run failedWorld)) = Some msgGenerateFailed)).
Proof.
  split; [reflexivity |].
  exact (@generate_failure_keeps_ingredients identifyOnlyService initialProfile
           ["tomato"; "egg"] "quota" "data:image/jpeg;base64,AAAA" failedWorld
           eq_refl).
Defined.

(* ------------------------------------------------------------------ *)
(** ** The capture workflow on every path *)

Lemma handleCapture_run (service : GeminiService) (p : UserProfile)
    (img : string) (w : World) :
  handleCapture service p img w = (Normal tt, captureSettled service p img w).
Proof.
  unfold captureSettled.
  destruct (identifyIngredientsFromImage service img) as [[| i ids] | e] eqn:Hid.
  - now apply handleCapture_nothing_identified.
  - assert (Hne : i :: ids <> []) by discriminate.
    now rewrite (handleCapture_identified service p img w Hid Hne).
  - now apply handleCapture_rejected.
Qed.

(** X1. A capture whose identify call resolves to a non-empty list and whose
    generate call resolves makes exactly two requests, identify then
    generate with the identified list and the current profile, logs nothing
    else, and ends with that list as ingredients, the response as recipes,
    no error, the loading indicator off and the camera closed. *)
Theorem capture_identify_then_generate
    (service : GeminiService) (w : World) (img : string)
    (ids : list string) (rs : list Recipe) :
  ids <> [] ->
  identifyIngredientsFromImage service img = Resolved ids ->
  generateRecipes service ids (profile (st w)) = Resolved rs ->
  let run := dispatch service (fun cb => onCapture cb img) in
  completion run w = Normal tt /\
  map fst (issued run w) =
    [IdentifyRequest img; GenerateRequest ids (profile (st w))] /\
  ingredients (st (exec run w)) = ids /\
  recipes (st (exec run w)) = rs /\
  error (st (exec run w)) = None /\
  isLoading (st (exec run w)) = false /\
  loadingMessage (st (exec run w)) = "" /\
  isCameraOpen (st (exec run w)) = false.
Proof.
  intros Hne Hid Hgen run.
  assert (Hrun : run w =
    (Normal tt,
     generateSettled ids (profile (st w)) (Resolved rs)
       (mkWorld (with_ingredients ids (capturePending (st w)))
                (log w ++ [(IdentifyRequest img, capturePending (st w))])))).
  { unfold run, dispatch. simpl onCapture.
    rewrite (handleCapture_identified service (profile (st w)) img w Hid Hne).
    now rewrite Hgen. }
  assert (Hissued : map fst (issued run w) =
    [IdentifyRequest img; GenerateRequest ids (profile (st w))]).
  { erewrite issued_of_log.
    2:{ unfold exec. rewrite Hrun. simpl. rewrite <- app_assoc. reflexivity. }
    reflexivity. }
  unfold completion, exec. rewrite Hrun. repeat split. exact Hissued.
Qed.

Lemma capture_identify_then_generate_witness :
  ["tomato"; "egg"] <> [] /\
  let run := dispatch answeringService (fun cb => onCapture cb "data:image/jpeg;base64,AAAA") in
  completion run failedWorld = Normal tt /\
  map fst (issued run failedWorld) =
    [IdentifyRequest "data:image/jpeg;base64,AAAA";
     GenerateRequest ["tomato"; "egg"] (profile (st failedWorld))] /\
  ingredients (st (exec run failedWorld)) = ["tomato"; "egg"] /\
  recipes (st (exec run failedWorld)) = [tomatoOmelet] /\
  error (st (exec run failedWorld)) = None /\
  isLoading (st (exec run failedWorld)) = false /\
  loadingMessage (st (exec run failedWorld)) = "" /\
  isCameraOpen (st (exec run failedWorld)) = false.
Proof.
  assert (Hne : ["tomato"; "egg"] <> []) by discriminate.
  split; [exact Hne |].
  exact (@capture_identify_then_generate answeringService failedWorld
           "data:image/jpeg;base64,AAAA" ["tomato"; "egg"] [tomatoOmelet]
           Hne eq_refl eq_refl).
Defined.

(** X2. A capture whose identify call resolves to the empty list stops there:
    the identify request is the only event (no generate request, nothing on
    the console), and the handler ends with no ingredients, no recipes, no
    error and the loading indicator off. *)
Theorem capture_nothing_identified
    (service : GeminiService) (p : UserProfile) (img : string) (w : World) :
  identifyIngredientsFromImage service img = Resolved [] ->
  let run := handleCapture service p img in
  completion run w = Normal tt /\
  map fst (issued run w) = [IdentifyRequest img] /\
  ingredients (st (exec run w)) = [] /\
  recipes (st (exec run w)) = [] /\
  error (st (exec run w)) = None /\
  isLoading (st (exec run w)) = false /\
  loadingMessage (st (exec run w)) = "".
Proof.
  intros Hid run.
  pose proof (handleCapture_nothing_identified service p img w Hid) as Hrun.
  fold run in Hrun. cbv zeta in Hrun.
  assert (Hissued : map fst (issued run w) = [IdentifyRequest img]).
  { erewrite issued_of_log.
    2:{ unfold exec. rewrite Hrun. simpl. reflexivity. }
    reflexivity. }
  unfold completion, exec. rewrite Hrun. repeat split. exact Hissued.
Qed.

Lemma capture_nothing_identified_witness :
  identifyIngredientsFromImage
    (mkGeminiService (fun _ _ => Resolved [tomatoSoup]) (fun _ => Resolved []))
    "data:image/jpeg;base64,AAAA" = Resolved [] /\
  let run :=
    handleCapture
      (mkGeminiService (fun _ _ => Resolved [tomatoSoup]) (fun _ => Resolved []))
      initialProfile "data:image/jpeg;base64,AAAA" in
  completion run failedWorld = Normal tt /\
  map fst (issued run failedWorld) = [IdentifyRequest "data:image/jpeg;base64,AAAA"] /\
  ingredients (st (exec run failedWorld)) = [] /\
  recipes (st (exec run failedWorld)) = [] /\
  error (st (exec run failedWorld)) = None /\
  isLoading (st (exec run failedWorld)) = false /\
  loadingMessage (st (exec run failedWorld)) = "".
Proof.
  split; [reflexivity |].
  exact (@capture_nothing_identified
           (mkGeminiService (fun _ _ => Resolved [tomatoSoup]) (fun _ => Resolved []))
           initialProfile "data:image/jpeg;base64,AAAA" failedWorld eq_refl).
Defined.

(** X3. Whatever the two calls settle to, a capture never throws, makes
    exactly one identify request and at most one generate request, and ends
    with the loading indicator off and the camera closed; it leaves the
    favourites, the shopping list, the profile, the tab, the selected recipe
    and the authentication flag as they were. *)
Theorem capture_always_settles
    (service : GeminiService) (p : UserProfile) (img : string) (w : World) :
  let run := handleCapture service p img in
  let w' := exec run w in
  completion run w = Normal tt /\
  identifyRequests (issued run w) = [img] /\
  (List.length (generateRequests (issued run w)) <= 1)%nat /\
  atRest (st w') /\
  isCameraOpen (st w') = false /\
  favoriteRecipes (st w') = favoriteRecipes (st w) /\
  shoppingList (st w') = shoppingList (st w) /\
  profile (st w') = profile (st w) /\
  activeTab (st w') = activeTab (st w) /\
  selectedRecipe (st w') = selectedRecipe (st w) /\
  isAuthenticated (st w') = isAuthenticated (st w).
Proof.
  intros run w'. unfold w', completion, issued, atRest. unfold exec, run.
  rewrite handleCapture_run. unfold captureSettled. simpl fst. simpl snd.
  destruct (identifyIngredientsFromImage service img) as [[| i ids] | e].
  - simpl. rewrite skipn_length_app. repeat split. simpl. lia.
  - destruct (generateRecipes service (i :: ids) p); simpl;
      rewrite <- ?app_assoc, skipn_length_app; repeat split; simpl; lia.
  - simpl. rewrite <- app_assoc, skipn_length_app. repeat split. simpl. lia.
Qed.

(** X4. A capture replaces what was displayed: the ingredient list becomes
    the identified list (empty when the identify call fails), and the recipe
    list becomes the generated list when both calls succeed and is empty on
    every other path; earlier ingredients and recipes never survive. *)
Theorem capture_replaces_lists
    (service : GeminiService) (p : UserProfile) (img : string) (w : World) :
  let w' := exec (handleCapture service p img) w in
  ingredients (st w') =
    match identifyIngredientsFromImage service img with
    | Resolved ids => ids
    | Rejected _ => []
    end /\
  recipes (st w') =
    match identifyIngredientsFromImage service img with
    | Resolved (i :: ids) =>
        match generateRecipes service (i :: ids) p with
        | Resolved rs => rs
        | Rejected _ => []
        end
    | _ => []
    end.
Proof.
  intros w'. unfold w', exec. rewrite handleCapture_run. unfold captureSettled.
  destruct (identifyIngredientsFromImage service img) as [[| i ids] | e].
  - split; reflexivity.
  - destruct (generateRecipes service (i :: ids) p); split; reflexivity.
  - split; reflexivity.
Qed.

(** X5. When the generate call of a direct generation is rejected, the recipe
    list shown before stays as it was (it is neither cleared nor replaced),
    the error is the fixed generation message, and the reason of the
    rejection is logged once on the console. *)
Theorem generate_failure_keeps_recipes
    (service : GeminiService) (p : UserProfile) (ings : list string)
    (e : JsError) (w : World) :
  ings <> [] ->
  generateRecipes service ings p = Rejected e ->
  let run := handleGenerateRecipes service p ings in
  recipes (st (exec run w)) = recipes (st w) /\
  error (st (exec run w)) = Some msgGenerateFailed /\
  consoleErrors (issued run w) = [e].
Proof.
  intros Hne Hgen run. unfold issued. unfold exec, run.
  rewrite (handleGenerateRecipes_nonempty service p w Hne), Hgen. simpl.
  rewrite <- app_assoc, skipn_length_app. repeat split.
Qed.

Lemma generate_failure_keeps_recipes_witness :
  ["tomato"] <> [] /\
  generateRecipes offlineService ["tomato"] initialProfile = Rejected "network" /\
  let w := exec (handleGenerateRecipes answeringService initialProfile ["tomato"])
                initialWorld in
  let run := handleGenerateRecipes offlineService initialProfile ["tomato"] in
  recipes (st (exec run w)) = recipes (st w) /\
  error (st (exec run w)) = Some msgGenerateFailed /\
  consoleErrors (issued run w) = ["network"].
Proof.
  assert (Hne : ["tomato"] <> []) by discriminate.
  split; [exact Hne |]. split; [reflexivity |].
  exact (@generate_failure_keeps_recipes offlineService initialProfile ["tomato"]
           "network"
           (exec (handleGenerateRecipes answeringService initialProfile ["tomato"])
                 initialWorld)
           Hne eq_refl).
Defined.

(* ------------------------------------------------------------------ *)
(** ** The identify button and the profile *)

(** X6. A click on the identify button with no ingredient opens the camera
    and does nothing else (no request); with ingredients it makes exactly one
    generate request carrying the current ingredient list and the current
    profile, makes no identify request, leaves the camera flag and the
    ingredient list as they were and ends with the loading indicator off. *)
Theorem identify_click_opens_camera_or_generates
    (service : GeminiService) (w : World) :
  let run := dispatch service (fun cb => onIdentifyClick cb) in
  match ingredients (st w) with
  | [] =>
      exec run w = mkWorld (with_isCameraOpen true (st w)) (log w)
  | _ :: _ =>
      generateRequests (issued run w) = [(ingredients (st w), profile (st w))] /\
      identifyRequests (issued run w) = [] /\
      isCameraOpen (st (exec run w)) = isCameraOpen (st w) /\
      ingredients (st (exec run w)) = ingredients (st w) /\
      atRest (st (exec run w))
  end.
Proof.
  intros run. unfold run, dispatch, issued. unfold exec.
  simpl onIdentifyClick. unfold handleIdentifyClick.
  destruct (ingredients (st w)) as [| i ings] eqn:Hings; [reflexivity |].
  assert (Hne : i :: ings <> []) by discriminate.
  rewrite (nonempty_length_ltb Hne).
  rewrite (handleGenerateRecipes_nonempty service (profile (st w)) w Hne).
  unfold atRest.
  destruct (generateRecipes service (i :: ings) (profile (st w))); simpl;
    rewrite <- ?app_assoc, skipn_length_app; repeat split; exact Hings.
Qed.

(** X13. Saving a profile stores it, shows the confirmation alert once, and
    the next generation (a click on the identify button with ingredients)
    sends the saved profile with the current ingredient list. *)
Theorem profile_save_then_generate
    (service : GeminiService) (updated : UserProfile) (w : World) :
  ingredients (st w) <> [] ->
  let run := perform service (ProfileSave updated) ;;
             perform service IdentifyClick in
  profile (st (exec run w)) = updated /\
  alerts (issued run w) = [msgProfileSaved] /\
  generateRequests (issued run w) = [(ingredients (st w), updated)].
Proof.
  intros Hne run. unfold issued. unfold exec, run, bind, perform, dispatch.
  simpl onProfileSave. simpl onIdentifyClick.
  unfold handleProfileSave, bind, setProfile, alert, emit, modify.
  cbn [st log ingredients profile with_profile].
  unfold handleIdentifyClick. rewrite (nonempty_length_ltb Hne).
  rewrite handleGenerateRecipes_nonempty by exact Hne.
  destruct (generateRecipes service (ingredients (st w)) updated); simpl;
    rewrite <- ?app_assoc, skipn_length_app; repeat split.
Qed.

Lemma profile_save_then_generate_witness :
  ingredients (st failedWorld) <> [] /\
  let updated := mkUserProfile "Ana" "31" feminino ["vegetariana"] in
  let run := perform answeringService (ProfileSave updated) ;;
             perform answeringService IdentifyClick in
  profile (st (exec run failedWorld)) = updated /\
  alerts (issued run failedWorld) = [msgProfileSaved] /\
  generateRequests (issued run failedWorld) =
    [(ingredients (st failedWorld), updated)].
Proof.
  assert (Hne : ingredients (st failedWorld) <> []) by discriminate.
  split; [exact Hne |].
  exact (@profile_save_then_generate answeringService
           (mkUserProfile "Ana" "31" feminino ["vegetariana"]) failedWorld Hne).
Defined.

(* ------------------------------------------------------------------ *)
(** ** Adding and removing ingredients *)

Lemma filter_from_In {A} (pred : A -> Z -> bool) (arr : list A) (i : Z) (x : A) :
  In x (filter_from pred i arr) -> In x arr.
Proof.
  revert i. induction arr as [| y arr IH]; intros i; simpl; [tauto |].
  destruct (pred y i); simpl; intros H.
  - destruct H as [H | H]; [now left | right; exact (IH _ H)].
  - right. exact (IH _ H).
Qed.

Lemma filter_from_NoDup {A} (pred : A -> Z -> bool) (arr : list A) (i : Z) :
  NoDup arr -> NoDup (filter_from pred i arr).
Proof.
  revert i. induction arr as [| y arr IH]; intros i H; simpl; [constructor |].
  inversion H as [| ? ? Hnotin Hrest]; subst.
  destruct (pred y i); [| now apply IH].
  constructor; [| now apply IH].
  intros Hin. apply Hnotin. exact (filter_from_In _ _ _ _ Hin).
Qed.

Lemma filter_from_in_range {A} (arr : list A) (index i : Z) :
  (i <= index < i + Z.of_nat (List.length arr))%Z ->
  filter_from (fun _ j => negb (j =? index)%Z) i arr =
    firstn (Z.to_nat (index - i)) arr ++ skipn (S (Z.to_nat (index - i))) arr.
Proof.
  revert i. induction arr as [| y arr IH]; intros i H.
  - simpl List.length in H. lia.
  - simpl List.length in H. simpl filter_from.
    destruct (Z.eqb_spec i index) as [E | E].
    + subst i. simpl negb. cbv iota.
      rewrite filter_from_out_of_range by lia.
      now rewrite Z.sub_diag.
    + simpl negb. cbv iota.
      rewrite IH by lia.
      replace (Z.to_nat (index - i)) with (S (Z.to_nat (index - (i + 1)))) by lia.
      reflexivity.
Qed.

(** X7. Adding a name that is not in the ingredient list appends it at the
    end, keeping the earlier names in order, and changes nothing else. *)
Theorem add_absent_ingredient_appends
    (service : GeminiService) (w : World) (x : string) :
  ~ In x (ingredients (st w)) ->
  let run := dispatch service (fun cb => onAddIngredient cb x) in
  completion run w = Normal tt /\
  ingredients (st (exec run w)) = ingredients (st w) ++ [x] /\
  exec run w = mkWorld (with_ingredients (ingredients (st w) ++ [x]) (st w)) (log w).
Proof.
  intros Hnotin run. unfold completion, exec, run, dispatch.
  simpl onAddIngredient. unfold handleAddIngredient.
  destruct (includes (ingredients (st w)) x) eqn:Hinc.
  - apply includes_In in Hinc. contradiction.
  - repeat split.
Qed.

Lemma add_absent_ingredient_appends_witness :
  ~ In "egg" (ingredients (st failedWorld)) /\
  let run := dispatch answeringService (fun cb => onAddIngredient cb "egg") in
  completion run failedWorld = Normal tt /\
  ingredients (st (exec run failedWorld)) = ingredients (st failedWorld) ++ ["egg"] /\
  exec run failedWorld =
    mkWorld (with_ingredients (ingredients (st failedWorld) ++ ["egg"]) (st failedWorld))
            (log failedWorld).
Proof.
  assert (Hnotin : ~ In "egg" (ingredients (st failedWorld))).
  { simpl. intros [H | []]. discriminate H. }
  split; [exact Hnotin |].
  exact (@add_absent_ingredient_appends answeringService failedWorld "egg" Hnotin).
Defined.

(** X9. The duplicate test of [handleAddIngredient] reads the list of the
    render that created the handler, the updater the latest list: two add
    events for a name absent from the rendered list, raised on that same
    render, append the name twice. *)
Theorem add_twice_on_one_render_duplicates
    (closure_ingredients : list string) (x : string) (w : World) :
  ~ In x closure_ingredients ->
  let run := handleAddIngredient closure_ingredients x ;;
             handleAddIngredient closure_ingredients x in
  ingredients (st (exec run w)) = ingredients (st w) ++ [x; x] /\
  ~ NoDup (ingredients (st (exec run w))).
Proof.
  intros Hnotin run.
  assert (Hinc : includes closure_ingredients x = false).
  { destruct (includes closure_ingredients x) eqn:E; [| reflexivity].
    apply includes_In in E. contradiction. }
  assert (Hrun : ingredients (st (exec run w)) = ingredients (st w) ++ [x; x]).
  { unfold exec, run, bind, handleAddIngredient. rewrite Hinc. simpl.
    now rewrite <- app_assoc. }
  split; [exact Hrun |].
  rewrite Hrun. intros Hnd.
  apply NoDup_remove_2 in Hnd. apply Hnd.
  apply in_or_app. right. now left.
Qed.

Lemma add_twice_on_one_render_duplicates_witness :
  ~ In "egg" (ingredients initialState) /\
  let run := handleAddIngredient (ingredients initialState) "egg" ;;
             handleAddIngredient (ingredients initialState) "egg" in
  ingredients (st (exec run initialWorld)) = ingredients (st initialWorld) ++ ["egg"; "egg"] /\
  ~ NoDup (ingredients (st (exec run initialWorld))).
Proof.
  assert (Hnotin : ~ In "egg" (ingredients initialState)) by (simpl; tauto).
  split; [exact Hnotin |].
  exact (@add_twice_on_one_render_duplicates (ingredients initialState) "egg"
           initialWorld Hnotin).
Defined.

(** X10. Removing by an index inside the list deletes exactly the element at
    that position: the names before and after it stay, in order, and the
    list is one shorter. *)
Theorem remove_in_range_deletes_position (w : World) (index : Z) :
  (0 <= index < Z.of_nat (List.length (ingredients (st w))))%Z ->
  let run := handleRemoveIngredient index in
  let before := ingredients (st w) in
  ingredients (st (exec run w)) =
    firstn (Z.to_nat index) before ++ skipn (S (Z.to_nat index)) before /\
  S (List.length (ingredients (st (exec run w)))) = List.length before /\
  log (exec run w) = log w.
Proof.
  intros Hrange run before.
  assert (Hrun : ingredients (st (exec run w)) =
    firstn (Z.to_nat index) before ++ skipn (S (Z.to_nat index)) before).
  { unfold exec, run, handleRemoveIngredient, setIngredientsWith, modify,
      filter_indexed. simpl.
    rewrite filter_from_in_range by lia. now rewrite Z.sub_0_r. }
  split; [exact Hrun |]. split; [| reflexivity].
  rewrite Hrun, length_app, length_firstn, length_skipn.
  unfold before. lia.
Qed.

Lemma remove_in_range_deletes_position_witness :
  (0 <= 0 < Z.of_nat (List.length (ingredients (st failedWorld))))%Z /\
  let run := handleRemoveIngredient 0 in
  let before := ingredients (st failedWorld) in
  ingredients (st (exec run failedWorld)) =
    firstn (Z.to_nat 0) before ++ skipn (S (Z.to_nat 0)) before /\
  S (List.length (ingredients (st (exec run failedWorld)))) = List.length before /\
  log (exec run failedWorld) = log failedWorld.
Proof.
  assert (Hrange : (0 <= 0 < Z.of_nat (List.length (ingredients (st failedWorld))))%Z)
    by (simpl; lia).
  split; [exact Hrange |].
  exact (@remove_in_range_deletes_position failedWorld 0%Z Hrange).
Defined.

(* ------------------------------------------------------------------ *)
(** ** More on favourites *)

Lemma isRecipeFavorite_same_name (favs : list Recipe) (q r : Recipe) :
  recipeName q = recipeName r ->
  isRecipeFavorite favs q = isRecipeFavorite favs r.
Proof.
  intros E. unfold isRecipeFavorite. now rewrite E.
Qed.

Lemma isRecipeFavorite_filter_other (favs : list Recipe) (q r : Recipe) :
  recipeName q <> recipeName r ->
  isRecipeFavorite (filter (fun x => negb (recipeName x =? recipeName r)) favs) q
    = isRecipeFavorite favs q.
Proof.
  intros Hneq. unfold isRecipeFavorite, some.
  induction favs as [| y favs IH]; simpl; [reflexivity |].
  destruct (String.eqb_spec (recipeName y) (recipeName r)) as [E | E]; simpl.
  - rewrite IH.
    destruct (String.eqb_spec (recipeName y) (recipeName q)) as [E' | E'];
      [congruence | reflexivity].
  - now rewrite IH.
Qed.

Lemma isRecipeFavorite_snoc_other (favs : list Recipe) (q r : Recipe) :
  recipeName q <> recipeName r ->
  isRecipeFavorite (favs ++ [r]) q = isRecipeFavorite favs q.
Proof.
  intros Hneq. unfold isRecipeFavorite, some. rewrite existsb_app. simpl.
  destruct (String.eqb_spec (recipeName r) (recipeName q)) as [E | E];
    [congruence |].
  now rewrite !orb_false_r.
Qed.

Lemma filter_drops_one {A} (f : A -> bool) (x : A) (l : list A) :
  In x l -> f x = false -> (List.length (filter f l) < List.length l)%nat.
Proof.
  induction l as [| y l IH]; simpl; [tauto |].
  intros [-> | Hin] Hx.
  - rewrite Hx. pose proof (filter_length_le f l). lia.
  - specialize (IH Hin Hx). destruct (f y); simpl; lia.
Qed.

(** X11. A toggle flips the favourite status of the toggled recipe, and of
    every recipe with the same name, and leaves the status of every recipe
    with another name as it was. *)
Theorem toggle_flips_favorite_status
    (service : GeminiService) (recipe q : Recipe) (w : World) :
  let w' := exec (handleToggleFavorite recipe) w in
  isFavorite (App service (st w')) q =
    if recipeName q =? recipeName recipe
    then negb (isFavorite (App service (st w)) recipe)
    else isFavorite (App service (st w)) q.
Proof.
  intros w'. unfold w', exec. rewrite handleToggleFavorite_run.
  cbn [snd st favoriteRecipes with_favoriteRecipes App isFavorite].
  destruct (String.eqb_spec (recipeName q) (recipeName recipe)) as [E | E].
  - rewrite (isRecipeFavorite_same_name _ _ _ E).
    destruct (isRecipeFavorite (favoriteRecipes (st w)) recipe) eqn:Hfav.
    + now apply toggle_present_removes_all.
    + rewrite (toggle_absent _ _ Hfav). apply isRecipeFavorite_snoc.
  - destruct (isRecipeFavorite (favoriteRecipes (st w)) recipe) eqn:Hfav.
    + rewrite (toggle_present _ _ Hfav). now apply isRecipeFavorite_filter_other.
    + rewrite (toggle_absent _ _ Hfav). now apply isRecipeFavorite_snoc_other.
Qed.

(** X12. Toggling a recipe whose name is among the favourites removes every
    entry with that name and keeps the other entries in their order, so the
    list gets shorter; a second toggle appends the toggled recipe at the end:
    two toggles move the name to the last place and store the recipe that
    was toggled. *)
Theorem toggle_present_removes_then_appends (recipe : Recipe) (w : World) :
  isRecipeFavorite (favoriteRecipes (st w)) recipe = true ->
  let favs := favoriteRecipes (st w) in
  let others := filter (fun r => negb (recipeName r =? recipeName recipe)) favs in
  let w1 := exec (handleToggleFavorite recipe) w in
  let w2 := exec (handleToggleFavorite recipe) w1 in
  favoriteRecipes (st w1) = others /\
  (forall r, In r others <-> In r favs /\ recipeName r <> recipeName recipe) /\
  (List.length (favoriteRecipes (st w1)) < List.length favs)%nat /\
  favoriteRecipes (st w2) = others ++ [recipe].
Proof.
  intros Hfav favs others w1 w2.
  assert (H1 : favoriteRecipes (st w1) = others).
  { unfold w1, exec. rewrite handleToggleFavorite_run. simpl.
    now apply toggle_present. }
  split; [exact H1 |]. split; [| split].
  - intros r. unfold others. rewrite filter_In, negb_true_iff, String.eqb_neq.
    tauto.
  - rewrite H1. unfold others.
    apply isRecipeFavorite_true in Hfav. destruct Hfav as [x [Hx Hname]].
    apply (filter_drops_one _ x favs Hx).
    apply negb_false_iff. now apply String.eqb_eq.
  - unfold w2, exec. rewrite handleToggleFavorite_run.
    cbn [snd st favoriteRecipes with_favoriteRecipes]. rewrite H1.
    apply toggle_absent. unfold others, favs.
    rewrite <- (toggle_present _ _ Hfav).
    now apply toggle_present_removes_all.
Qed.

Lemma toggle_present_removes_then_appends_witness :
  isRecipeFavorite
    (favoriteRecipes (st (runToggles [tomatoOmelet; tomatoSoup] initialWorld)))
    tomatoOmelet = true /\
  let w := runToggles [tomatoOmelet; tomatoSoup] initialWorld in
  let favs := favoriteRecipes (st w) in
  let others :=
    filter (fun r => negb (recipeName r =? recipeName tomatoOmelet)) favs in
  let w1 := exec (handleToggleFavorite tomatoOmelet) w in
  let w2 := exec (handleToggleFavorite tomatoOmelet) w1 in
  favoriteRecipes (st w1) = others /\
  (forall r, In r others <-> In r favs /\ recipeName r <> recipeName tomatoOmelet) /\
  (List.length (favoriteRecipes (st w1)) < List.length favs)%nat /\
  favoriteRecipes (st w2) = others ++ [tomatoOmelet].
Proof.
  split; [reflexivity |].
  exact (@toggle_present_removes_then_appends tomatoOmelet
           (runToggles [tomatoOmelet; tomatoSoup] initialWorld) eq_refl).
Defined.

(* ------------------------------------------------------------------ *)
(** ** Sessions: what every action keeps *)

(** The world after one action, case by case: the action, then what the
    calls of a capture or of a generation settled to. *)
Lemma perform_run (service : GeminiService) (a : Action) (w : World) :
  perform service a w =
    (Normal tt,
     match a with
     | Login => mkWorld (with_isAuthenticated true (st w)) (log w)
     | CloseCamera => mkWorld (with_isCameraOpen false (st w)) (log w)
     | Capture img => captureSettled service (profile (st w)) img w
     | IdentifyClick =>
         match ingredients (st w) with
         | [] => mkWorld (with_isCameraOpen true (st w)) (log w)
         | i :: ings =>
             generateSettled (i :: ings) (profile (st w))
               (generateRecipes service (i :: ings) (profile (st w))) w
         end
     | ToggleFavorite r =>
         mkWorld (with_favoriteRecipes
                    (toggleFavoriteUpdater r (favoriteRecipes (st w))) (st w))
                 (log w)
     | AddIngredient x =>
         if includes (ingredients (st w)) x then w
         else mkWorld (with_ingredients (ingredients (st w) ++ [x]) (st w)) (log w)
     | RemoveIngredient i =>
         mkWorld (with_ingredients
                    (filter_indexed (fun _ j => negb (j =? i)%Z) (ingredients (st w)))
                    (st w))
                 (log w)
     | ProfileSave p =>
         mkWorld (with_profile p (st w))
                 (log w ++ [(Alert msgProfileSaved, with_profile p (st w))])
     | RecipeSelect r => mkWorld (with_selectedRecipe (Some r) (st w)) (log w)
     | DetailBack => mkWorld (with_selectedRecipe None (st w)) (log w)
     | TabChange tab => mkWorld (with_activeTab tab (st w)) (log w)
     end).
Proof.
  destruct a as [ | | img | | r | x | i | p | r | | tab];
    unfold perform, dispatch; cbn [App onCapture onIdentifyClick onToggleFavorite
      onAddIngredient onRemoveIngredient onProfileSave]; try reflexivity.
  - apply handleCapture_run.
  - unfold handleIdentifyClick.
    destruct (ingredients (st w)) as [| i ings]; [reflexivity |].
    assert (Hne : i :: ings <> []) by discriminate.
    rewrite (nonempty_length_ltb Hne).
    now apply handleGenerateRecipes_nonempty.
  - unfold handleAddIngredient.
    destruct (includes (ingredients (st w)) x); reflexivity.
Qed.

Lemma performAll_snoc (steps : list (GeminiService * Action))
    (step : GeminiService * Action) (w : World) :
  performAll (steps ++ [step]) w =
    exec (perform (fst step) (snd step)) (performAll steps w).
Proof.
  unfold performAll. now rewrite fold_left_app.
Qed.

(** A property kept by every action is kept by every session. *)
Lemma performAll_invariant (P : World -> Prop) :
  (forall service a w, P w -> P (exec (perform service a) w)) ->
  forall steps w, P w -> P (performAll steps w).
Proof.
  intros Hstep steps. unfold performAll.
  induction steps as [| [service a] steps IH]; intros w Hw; simpl; [exact Hw |].
  apply IH. now apply Hstep.
Qed.

Ltac perform_cases service a w :=
  unfold exec; rewrite (perform_run service a w); cbn [snd];
  destruct a as [ | | ?img | | ?r | ?x | ?i | ?p | ?r | | ?tab];
  [ | | unfold captureSettled;
        destruct (identifyIngredientsFromImage service img) as [[| ?i0 ?ids] | ?e];
        [ | destruct (generateRecipes service (i0 :: ids) (profile (st w))) | ]
    | destruct (ingredients (st w)) as [| ?i0 ?ings] eqn:?Hings;
        [ | destruct (generateRecipes service (i0 :: ings) (profile (st w))) ]
    | | destruct (includes (ingredients (st w)) x) eqn:?Hinc | | | | | ].

Lemma perform_atRest (service : GeminiService) (a : Action) (w : World) :
  atRest (st w) -> atRest (st (exec (perform service a) w)).
Proof.
  unfold atRest. intros [Hl Hm].
  perform_cases service a w; simpl; split; (assumption || reflexivity).
Qed.

Lemma perform_knownError (service : GeminiService) (a : Action) (w : World) :
  knownError (st w) -> knownError (st (exec (perform service a) w)).
Proof.
  unfold knownError. intros H.
  perform_cases service a w; simpl;
    first [ exact H
          | left; reflexivity
          | right; left; reflexivity
          | right; right; reflexivity ].
Qed.

Lemma perform_favorites_distinct (service : GeminiService) (a : Action) (w : World) :
  NoDup (map recipeName (favoriteRecipes (st w))) ->
  NoDup (map recipeName (favoriteRecipes (st (exec (perform service a) w)))).
Proof.
  intros H.
  perform_cases service a w; simpl;
    first [ exact H | now apply toggle_keeps_names_distinct ].
Qed.

Lemma perform_frame (service : GeminiService) (a : Action) (w : World) :
  shoppingList (st (exec (perform service a) w)) = shoppingList (st w) /\
  isAuthenticated (st (exec (perform service a) w)) =
    isAuthenticated (st w) || isLogin a.
Proof.
  perform_cases service a w; simpl;
    rewrite ?orb_false_r, ?orb_true_r; split; reflexivity.
Qed.

Lemma NoDup_snoc {A} (l : list A) (x : A) :
  NoDup l -> ~ In x l -> NoDup (l ++ [x]).
Proof.
  intros Hnd Hnotin. apply NoDup_app.
  - exact Hnd.
  - repeat constructor. intros [].
  - intros y Hy [<- | []]. contradiction.
Qed.

Lemma perform_ingredients_distinct (service : GeminiService) (a : Action) (w : World) :
  isCapture a = false ->
  NoDup (ingredients (st w)) ->
  NoDup (ingredients (st (exec (perform service a) w))).
Proof.
  intros Hcap H.
  perform_cases service a w; simpl; try discriminate Hcap;
    try rewrite Hings; try exact H.
  - apply NoDup_snoc; [exact H |].
    intros Hin. apply includes_In in Hin. congruence.
  - now apply filter_from_NoDup.
Qed.

(** The events of one action extend the log, and its requests agree with the
    state they were made in. *)
Lemma perform_log (service : GeminiService) (a : Action) (w : World) :
  exists tl,
    log (exec (perform service a) w) = log w ++ tl /\
    Forall requestConsistent tl.
Proof.
  perform_cases service a w; simpl;
    first
      [ exists []; split; [now rewrite app_nil_r | constructor]
      | eexists; split; [rewrite <- ?app_assoc; reflexivity |] ];
    simpl; repeat (apply Forall_cons || apply Forall_nil); simpl;
    repeat split; try reflexivity; try discriminate; try exact I;
    try (symmetry; assumption).
Qed.

Lemma perform_requestConsistent (service : GeminiService) (a : Action) (w : World) :
  Forall requestConsistent (log w) ->
  Forall requestConsistent (log (exec (perform service a) w)).
Proof.
  intros H. destruct (perform_log service a w) as [tl [Hlog Htl]].
  rewrite Hlog. apply Forall_app. now split.
Qed.

(** X14. The loading indicator is never left on: from a state where nothing
    is loading, after any series of actions, each run to completion and
    whatever the service answers, the loading flag is false and the loading
    message is empty. *)
Theorem session_never_left_loading
    (steps : list (GeminiService * Action)) (w : World) :
  atRest (st w) ->
  isLoading (st (performAll steps w)) = false /\
  loadingMessage (st (performAll steps w)) = "".
Proof.
  intros H.
  apply (performAll_invariant (fun w => atRest (st w))); [| exact H].
  intros service a w0. apply perform_atRest.
Qed.

Lemma session_never_left_loading_witness :
  atRest (st initialWorld) /\
  let steps :=
    [(answeringService, Login); (offlineService, IdentifyClick);
     (offlineService, Capture "data:image/jpeg;base64,AAAA");
     (identifyOnlyService, Capture "data:image/jpeg;base64,AAAA");
     (answeringService, IdentifyClick)] in
  isLoading (st (performAll steps initialWorld)) = false /\
  loadingMessage (st (performAll steps initialWorld)) = "".
Proof.
  assert (H : atRest (st initialWorld)) by (split; reflexivity).
  split; [exact H |].
  exact (@session_never_left_loading
           [(answeringService, Login); (offlineService, IdentifyClick);
            (offlineService, Capture "data:image/jpeg;base64,AAAA");
            (identifyOnlyService, Capture "data:image/jpeg;base64,AAAA");
            (answeringService, IdentifyClick)]
           initialWorld H).
Defined.

(** X15. Every request of a session (a series of actions, each run to
    completion) agrees with the cells its handler has just written: a
    generate request carries a non-empty ingredient list, which is the
    displayed list; an identify request is made with the ingredient and
    recipe lists cleared and the camera closed; both are made with the
    loading indicator on, its message set, and no error.  (Nothing is said
    of the profile of a generate request: see [captureResume].) *)
Theorem session_requests_consistent
    (steps : list (GeminiService * Action)) (w : World) :
  Forall requestConsistent (log w) ->
  Forall requestConsistent (log (performAll steps w)) /\
  Forall (fun q => fst q <> []) (generateRequests (log (performAll steps w))).
Proof.
  intros H.
  assert (Hall : Forall requestConsistent (log (performAll steps w))).
  { apply (performAll_invariant (fun w => Forall requestConsistent (log w)));
      [| exact H].
    intros service a w0. apply perform_requestConsistent. }
  split; [exact Hall |].
  induction Hall as [| [ev s] evs Hev _ IH]; simpl; [constructor |].
  destruct ev; simpl in *; try exact IH.
  constructor; [simpl; tauto | exact IH].
Qed.

Lemma session_requests_consistent_witness :
  Forall requestConsistent (log initialWorld) /\
  let steps :=
    [(answeringService, Capture "data:image/jpeg;base64,AAAA");
     (answeringService, AddIngredient "rice");
     (identifyOnlyService, IdentifyClick)] in
  Forall requestConsistent (log (performAll steps initialWorld)) /\
  Forall (fun q => fst q <> [])
    (generateRequests (log (performAll steps initialWorld))).
Proof.
  assert (H : Forall requestConsistent (log initialWorld)) by constructor.
  split; [exact H |].
  exact (@session_requests_consistent
           [(answeringService, Capture "data:image/jpeg;base64,AAAA");
            (answeringService, AddIngredient "rice");
            (identifyOnlyService, IdentifyClick)]
           initialWorld H).
Defined.

(** X16. No action writes the shopping list, and nothing revokes the
    authentication: after any session the shopping list is the one the
    session started with, and the user is authenticated exactly when they
    were before or a login happened during the session. *)
Theorem session_keeps_shopping_list_and_login
    (steps : list (GeminiService * Action)) (w : World) :
  shoppingList (st (performAll steps w)) = shoppingList (st w) /\
  isAuthenticated (st (performAll steps w)) =
    isAuthenticated (st w) || existsb isLogin (map snd steps).
Proof.
  unfold performAll. revert w.
  induction steps as [| [service a] steps IH]; intros w; simpl.
  - now rewrite orb_false_r.
  - destruct (IH (exec (perform service a) w)) as [Hs Ha].
    destruct (perform_frame service a w) as [Hs1 Ha1].
    rewrite Hs, Ha, Hs1, Ha1. split; [reflexivity |].
    now rewrite orb_assoc.
Qed.

(** X17. The names of the favourites stay pairwise distinct through any
    session, whatever actions it mixes and whatever the service answers. *)
Theorem session_favorites_names_distinct
    (steps : list (GeminiService * Action)) (w : World) :
  NoDup (map recipeName (favoriteRecipes (st w))) ->
  NoDup (map recipeName (favoriteRecipes (st (performAll steps w)))).
Proof.
  intros H.
  apply (performAll_invariant
           (fun w => NoDup (map recipeName (favoriteRecipes (st w)))));
    [| exact H].
  intros service a w0. apply perform_favorites_distinct.
Qed.

Lemma session_favorites_names_distinct_witness :
  NoDup (map recipeName (favoriteRecipes (st initialWorld))) /\
  let steps :=
    [(answeringService, ToggleFavorite tomatoOmelet);
     (answeringService, Capture "data:image/jpeg;base64,AAAA");
     (answeringService, ToggleFavorite tomatoSoup);
     (offlineService, IdentifyClick);
     (answeringService, ToggleFavorite tomatoOmelet);
     (answeringService, ToggleFavorite tomatoOmelet)] in
  NoDup (map recipeName (favoriteRecipes (st (performAll steps initialWorld)))).
Proof.
  assert (H : NoDup (map recipeName (favoriteRecipes (st initialWorld))))
    by constructor.
  split; [exact H |].
  exact (@session_favorites_names_distinct
           [(answeringService, ToggleFavorite tomatoOmelet);
            (answeringService, Capture "data:image/jpeg;base64,AAAA");
            (answeringService, ToggleFavorite tomatoSoup);
            (offlineService, IdentifyClick);
            (answeringService, ToggleFavorite tomatoOmelet);
            (answeringService, ToggleFavorite tomatoOmelet)]
           initialWorld H).
Defined.

(** X18. The error cell only ever holds null or one of the two fixed
    messages, through any session, whatever reason the service rejects
    with. *)
Theorem session_error_is_a_fixed_message
    (steps : list (GeminiService * Action)) (w : World) :
  knownError (st w) ->
  error (st (performAll steps w)) = None \/
  error (st (performAll steps w)) = Some msgGenerateFailed \/
  error (st (performAll steps w)) = Some msgIdentifyFailed.
Proof.
  intros H.
  apply (performAll_invariant (fun w => knownError (st w))); [| exact H].
  intros service a w0. apply perform_knownError.
Qed.

Lemma session_error_is_a_fixed_message_witness :
  knownError (st initialWorld) /\
  let steps :=
    [(offlineService, Capture "data:image/jpeg;base64,AAAA");
     (answeringService, AddIngredient "rice");
     (offlineService, IdentifyClick)] in
  (error (st (performAll steps initialWorld)) = None \/
   error (st (performAll steps initialWorld)) = Some msgGenerateFailed \/
   error (st (performAll steps initialWorld)) = Some msgIdentifyFailed).
Proof.
  assert (H : knownError (st initialWorld)) by (left; reflexivity).
  split; [exact H |].
  exact (@session_error_is_a_fixed_message
           [(offlineService, Capture "data:image/jpeg;base64,AAAA");
            (answeringService, AddIngredient "rice");
            (offlineService, IdentifyClick)]
           initialWorld H).
Defined.

(** X8. The ingredient names stay pairwise distinct through any session
    without a capture: adding, removing, generating, toggling favourites,
    saving the profile and navigating never create a duplicate. *)
Theorem session_ingredients_distinct_without_capture
    (steps : list (GeminiService * Action)) (w : World) :
  forallb (fun step => negb (isCapture (snd step))) steps = true ->
  NoDup (ingredients (st w)) ->
  NoDup (ingredients (st (performAll steps w))).
Proof.
  unfold performAll. revert w.
  induction steps as [| [service a] steps IH]; intros w Hsteps H; simpl;
    [exact H |].
  simpl in Hsteps. apply andb_true_iff in Hsteps. destruct Hsteps as [Ha Hrest].
  apply IH; [exact Hrest |].
  apply perform_ingredients_distinct; [| exact H].
  now apply negb_true_iff.
Qed.

Lemma session_ingredients_distinct_without_capture_witness :
  let steps :=
    [(answeringService, AddIngredient "rice");
     (answeringService, AddIngredient "tomato");
     (answeringService, RemoveIngredient 0);
     (answeringService, AddIngredient "tomato");
     (offlineService, IdentifyClick)] in
  forallb (fun step => negb (isCapture (snd step))) steps = true /\
  NoDup (ingredients (st failedWorld)) /\
  NoDup (ingredients (st (performAll steps failedWorld))).
Proof.
  assert (H : NoDup (ingredients (st failedWorld))).
  { simpl. repeat constructor. intros []. }
  split; [reflexivity |]. split; [exact H |].
  exact (@session_ingredients_distinct_without_capture
           [(answeringService, AddIngredient "rice");
            (answeringService, AddIngredient "tomato");
            (answeringService, RemoveIngredient 0);
            (answeringService, AddIngredient "tomato");
            (offlineService, IdentifyClick)]
           failedWorld eq_refl H).
Defined.

(* ------------------------------------------------------------------ *)
(** ** What is rendered and what the actions do to it *)

Lemma renderContent_home (s : State) (props : HomeProps) :
  renderContent s = HomeMain props ->
  selectedRecipe s = None /\
  listIngredients props = ingredients s /\
  buttonText props =
    (if (0 <? List.length (ingredients s))%nat then textGenerate else textIdentify).
Proof.
  unfold renderContent. destruct (selectedRecipe s); [discriminate |].
  destruct (activeTab s =? tabHome).
  - intros H. injection H as <-. repeat split.
  - destruct (activeTab s =? tabFavorites); [discriminate |].
    destruct (activeTab s =? tabShoppingList); [discriminate |].
    destruct (activeTab s =? tabProfile); discriminate.
Qed.

(** X19. On the home tab the text of the identify button tells what a click
    does: under "IDENTIFICAR ALIMENTOS" the displayed ingredient list is
    empty and the click only opens the camera; under "GERAR NOVAS RECEITAS"
    the click makes one generate request with the displayed ingredient list
    and the stored profile, makes no identify request and leaves the camera
    flag as it was. *)
Theorem identify_button_text_matches_click
    (service : GeminiService) (w : World) (props : HomeProps) :
  renderContent (st w) = HomeMain props ->
  let run := perform service IdentifyClick in
  (buttonText props = textIdentify ->
   listIngredients props = [] /\
   isCameraOpen (st (exec run w)) = true /\
   issued run w = []) /\
  (buttonText props = textGenerate ->
   listIngredients props <> [] /\
   generateRequests (issued run w) = [(listIngredients props, profile (st w))] /\
   identifyRequests (issued run w) = [] /\
   isCameraOpen (st (exec run w)) = isCameraOpen (st w)).
Proof.
  intros Hhome run.
  destruct (@renderContent_home _ _ Hhome) as [_ [Hlist Htext]].
  rewrite Hlist, Htext. unfold issued. unfold exec, run.
  rewrite perform_run. cbn [snd].
  destruct (ingredients (st w)) as [| i ings]; simpl.
  - split; [| discriminate]. intros _.
    rewrite <- (app_nil_r (log w)) at 2. rewrite skipn_length_app.
    repeat split.
  - split; [discriminate |]. intros _.
    destruct (generateRecipes service (i :: ings) (profile (st w))); simpl;
      rewrite <- ?app_assoc, skipn_length_app;
      repeat split; discriminate.
Qed.

Lemma identify_button_text_matches_click_witness :
  let props :=
    mkHomeProps false textGenerate "" ["tomato"] (Some msgGenerateFailed) [] false in
  renderContent (st failedWorld) = HomeMain props /\
  let run := perform answeringService IdentifyClick in
  (buttonText props = textIdentify ->
   listIngredients props = [] /\
   isCameraOpen (st (exec run failedWorld)) = true /\
   issued run failedWorld = []) /\
  (buttonText props = textGenerate ->
   listIngredients props <> [] /\
   generateRequests (issued run failedWorld) =
     [(listIngredients props, profile (st failedWorld))] /\
   identifyRequests (issued run failedWorld) = [] /\
   isCameraOpen (st (exec run failedWorld)) = isCameraOpen (st failedWorld)).
Proof.
  split; [reflexivity |].
  exact (@identify_button_text_matches_click answeringService failedWorld
           (mkHomeProps false textGenerate "" ["tomato"] (Some msgGenerateFailed)
              [] false)
           eq_refl).
Defined.

(** X20. In the detail view, toggling the favourite of the shown recipe keeps
    the view on that recipe and flips its favourite mark. *)
Theorem detail_view_toggle_flips_mark
    (service : GeminiService) (w : World) (shown : Recipe) (mark : bool) :
  renderContent (st w) = RecipeDetailView shown mark ->
  renderContent (st (exec (perform service (ToggleFavorite shown)) w)) =
    RecipeDetailView shown (negb mark).
Proof.
  intros Hview. unfold exec. rewrite perform_run. cbn [snd st].
  unfold renderContent in *. cbn [selectedRecipe with_favoriteRecipes favoriteRecipes].
  destruct (selectedRecipe (st w)) as [selected |].
  - injection Hview as -> <-. f_equal.
    destruct (isRecipeFavorite (favoriteRecipes (st w)) shown) eqn:Hfav; simpl.
    + now apply toggle_present_removes_all.
    + rewrite (toggle_absent _ _ Hfav). apply isRecipeFavorite_snoc.
  - destruct (activeTab (st w) =? tabHome); [discriminate |].
    destruct (activeTab (st w) =? tabFavorites); [discriminate |].
    destruct (activeTab (st w) =? tabShoppingList); [discriminate |].
    destruct (activeTab (st w) =? tabProfile); discriminate.
Qed.

Lemma detail_view_toggle_flips_mark_witness :
  let w := exec (perform answeringService (RecipeSelect tomatoOmelet)) initialWorld in
  renderContent (st w) = RecipeDetailView tomatoOmelet false /\
  renderContent (st (exec (perform answeringService (ToggleFavorite tomatoOmelet)) w)) =
    RecipeDetailView tomatoOmelet (negb false).
Proof.
  split; [reflexivity |].
  exact (@detail_view_toggle_flips_mark answeringService
           (exec (perform answeringService (RecipeSelect tomatoOmelet)) initialWorld)
           tomatoOmelet false eq_refl).
Defined.

(** X21. Until a login happens the login view is all that is rendered: from
    an unauthenticated state, after any session without a login, the screen
    is the login view whatever the other cells hold; the first login then
    shows the main screen. *)
Theorem login_view_until_login
    (steps : list (GeminiService * Action)) (service : GeminiService) (w : World) :
  isAuthenticated (st w) = false ->
  forallb (fun step => negb (isLogin (snd step))) steps = true ->
  render (st (performAll steps w)) = AuthScreen /\
  render (st (exec (perform service Login) (performAll steps w))) <> AuthScreen.
Proof.
  intros Hauth Hsteps.
  assert (Hstill : isAuthenticated (st (performAll steps w)) = false).
  { unfold performAll. revert w Hauth.
    induction steps as [| [sv a] steps IH]; intros w Hauth; simpl; [exact Hauth |].
    simpl in Hsteps. apply andb_true_iff in Hsteps. destruct Hsteps as [Ha Hrest].
    apply IH; [exact Hrest |].
    destruct (perform_frame sv a w) as [_ Hframe]. rewrite Hframe, Hauth.
    apply negb_true_iff in Ha. now rewrite Ha. }
  split.
  - unfold render. now rewrite Hstill.
  - unfold exec. rewrite perform_run. unfold render. simpl. discriminate.
Qed.

Lemma login_view_until_login_witness :
  let steps :=
    [(answeringService, Capture "data:image/jpeg;base64,AAAA");
     (answeringService, TabChange tabFavorites)] in
  isAuthenticated (st initialWorld) = false /\
  forallb (fun step => negb (isLogin (snd step))) steps = true /\
  render (st (performAll steps initialWorld)) = AuthScreen /\
  render (st (exec (perform answeringService Login) (performAll steps initialWorld)))
    <> AuthScreen.
Proof.
  split; [reflexivity |]. split; [reflexivity |].
  exact (@login_view_until_login
           [(answeringService, Capture "data:image/jpeg;base64,AAAA");
            (answeringService, TabChange tabFavorites)]
           answeringService initialWorld eq_refl eq_refl).
Defined.

(* ------------------------------------------------------------------ *)
(** ** Errors are not sticky *)

(** Only the actions that start the workflow make a request. *)
Lemma requests_only_from_workflow_actions
    (service : GeminiService) (a : Action) (w : World) :
  invokesWorkflow a (st w) = false ->
  requestStates (issued (perform service a) w) = [].
Proof.
  unfold issued. intros Hinv.
  perform_cases service a w; simpl in *; try discriminate Hinv;
    try (rewrite Hings in Hinv; discriminate Hinv);
    first [ now rewrite skipn_all | now rewrite skipn_length_app ].
Qed.

(** C8. Errors are non-sticky: every action that invokes identification (a
    capture) or generation (a click on the identify button with ingredients)
    makes its requests with the error state reset to null, whatever error was
    displayed before, and when the calls of the action succeed the error is
    null at the end: no displayed error survives a successful action. *)
Theorem error_reset_by_every_workflow_action
    (service : GeminiService) (a : Action) (w : World) :
  invokesWorkflow a (st w) = true ->
  let run := perform service a in
  requestStates (issued run w) <> [] /\
  Forall (fun s => error s = None) (requestStates (issued run w)) /\
  (actionSucceeds service a (st w) -> error (st (exec run w)) = None).
Proof.
  intros Hinv run. unfold run, issued.
  destruct a as [ | | img | | r | x | i | p | r | | tab];
    try discriminate Hinv; unfold exec; rewrite perform_run; cbn [snd].
  - (* a capture *)
    unfold actionSucceeds, captureSucceeds, captureSettled.
    destruct (identifyIngredientsFromImage service img) as [[| i ids] | e].
    + simpl. rewrite skipn_length_app. simpl.
      split; [discriminate |]. split; [repeat constructor | reflexivity].
    + destruct (generateRecipes service (i :: ids) (profile (st w))); simpl;
        rewrite <- ?app_assoc, skipn_length_app; simpl;
        (split; [discriminate |]);
        (split; [repeat constructor |]); [reflexivity | tauto].
    + simpl. rewrite <- app_assoc, skipn_length_app. simpl.
      split; [discriminate |]. split; [repeat constructor | tauto].
  - (* a click on the identify button *)
    unfold actionSucceeds. simpl in Hinv.
    destruct (ingredients (st w)) as [| i ings]; [discriminate Hinv |].
    destruct (generateRecipes service (i :: ings) (profile (st w))); simpl;
      rewrite <- ?app_assoc, skipn_length_app; simpl;
      (split; [discriminate |]);
      (split; [repeat constructor |]); [reflexivity | tauto].
Qed.

Lemma error_reset_by_every_workflow_action_witness :
  error (st failedWorld) = Some msgGenerateFailed /\
  invokesWorkflow (Capture "data:image/jpeg;base64,AAAA") (st failedWorld) = true /\
  invokesWorkflow IdentifyClick (st failedWorld) = true /\
  (let run := perform answeringService (Capture "data:image/jpeg;base64,AAAA") in
   requestStates (issued run failedWorld) <> [] /\
   Forall (fun s => error s = None) (requestStates (issued run failedWorld)) /\
   (actionSucceeds answeringService (Capture "data:image/jpeg;base64,AAAA")
      (st failedWorld) ->
    error (st (exec run failedWorld)) = None)) /\
  (let run := perform answeringService IdentifyClick in
   requestStates (issued run failedWorld) <> [] /\
   Forall (fun s => error s = None) (requestStates (issued run failedWorld)) /\
   (actionSucceeds answeringService IdentifyClick (st failedWorld) ->
    error (st (exec run failedWorld)) = None)).
Proof.
  split; [reflexivity |]. split; [reflexivity |]. split; [reflexivity |].
  split.
  - exact (@error_reset_by_every_workflow_action answeringService
             (Capture "data:image/jpeg;base64,AAAA") failedWorld eq_refl).
  - exact (@error_reset_by_every_workflow_action answeringService
             IdentifyClick failedWorld eq_refl).
Defined.

(* ------------------------------------------------------------------ *)
(** ** A capture with actions raised while its identify call is pending *)

(** [handleCapture] is its part before the [await] followed by its part
    after it, resumed with what the identify call settled to. *)
Lemma handleCapture_split (service : GeminiService) (p : UserProfile)
    (img : string) (w : World) :
  handleCapture service p img w =
    (captureBegin img ;;
     captureResume service p (identifyIngredientsFromImage service img)) w.
Proof.
  unfold handleCapture, captureBegin, captureResume, try_catch,
    awaitIdentifyIngredientsFromImage, bind.
  cbn -[msgIdentifying msgIdentifyFailed handleGenerateRecipes Nat.ltb].
  destruct (identifyIngredientsFromImage service img); reflexivity.
Qed.

Lemma captureResume_identified (service : GeminiService) (p : UserProfile)
    (ids : list string) (w : World) :
  ids <> [] ->
  captureResume service p (Resolved ids) w =
    (Normal tt,
     generateSettled ids p (generateRecipes service ids p)
       (mkWorld (with_ingredients ids (st w)) (log w))).
Proof.
  intros Hne. unfold captureResume, try_catch, bind.
  cbn -[msgIdentifyFailed handleGenerateRecipes Nat.ltb].
  rewrite (nonempty_length_ltb Hne).
  now rewrite (handleGenerateRecipes_nonempty service p _ Hne).
Qed.

(** X22. A capture resumes with the [handleGenerateRecipes] of the render
    that raised it: whatever actions run while its identify call is pending,
    a profile save among them, the generate request it then makes carries
    the identified list and the profile of that earlier render, and is made
    with that list displayed, the loading indicator on and no error; the
    stored profile stays the one those actions left, the identified list
    becomes the ingredient list and the loading indicator ends off. *)
Theorem capture_resumes_with_profile_of_its_render
    (service : GeminiService) (during : list (GeminiService * Action))
    (img : string) (ids : list string) (w : World) :
  ids <> [] ->
  let pending := performAll during (exec (captureBegin img) w) in
  let run := captureResume service (profile (st w)) (Resolved ids) in
  generateRequests (issued run pending) = [(ids, profile (st w))] /\
  Forall requestConsistent (issued run pending) /\
  ingredients (st (exec run pending)) = ids /\
  profile (st (exec run pending)) = profile (st pending) /\
  atRest (st (exec run pending)).
Proof.
  intros Hne pending run. unfold issued, atRest. unfold exec.
  unfold run. rewrite (captureResume_identified service (profile (st w)) pending Hne).
  cbn [snd].
  destruct (generateRecipes service ids (profile (st w))); simpl;
    rewrite <- ?app_assoc, skipn_length_app;
    (split; [reflexivity |]);
    (split; [repeat (apply Forall_cons || apply Forall_nil); simpl;
             repeat split; (assumption || exact I) |]);
    repeat split.
Qed.

Lemma capture_resumes_with_profile_of_its_render_witness :
  let saved := mkUserProfile "Ana" "31" feminino ["vegetariana"] in
  let during := [(answeringService, TabChange tabProfile);
                 (answeringService, ProfileSave saved)] in
  let pending :=
    performAll during (exec (captureBegin "data:image/jpeg;base64,AAAA") failedWorld) in
  let run :=
    captureResume answeringService (profile (st failedWorld))
      (Resolved ["tomato"; "egg"]) in
  ["tomato"; "egg"] <> [] /\
  profile (st pending) = saved /\
  profile (st failedWorld) <> saved /\
  generateRequests (issued run pending) =
    [(["tomato"; "egg"], profile (st failedWorld))] /\
  Forall requestConsistent (issued run pending) /\
  ingredients (st (exec run pending)) = ["tomato"; "egg"] /\
  profile (st (exec run pending)) = profile (st pending) /\
  atRest (st (exec run pending)).
Proof.
  assert (Hne : ["tomato"; "egg"] <> []) by discriminate.
  split; [exact Hne |]. split; [reflexivity |]. split; [discriminate |].
  exact (@capture_resumes_with_profile_of_its_render answeringService
           [(answeringService, TabChange tabProfile);
            (answeringService,
             ProfileSave (mkUserProfile "Ana" "31" feminino ["vegetariana"]))]
           "data:image/jpeg;base64,AAAA" ["tomato"; "egg"] failedWorld Hne).
Defined.
